(** * Tracktor producers: buffering, batching, fan-out and backoff

    A shallow embedding of [src/tracktor/producer.py] and
    [src/tracktor/multi_producer.py], and the properties their
    specification states about them.

    Conventions of the embedding:
    - a Python [str] is a [string] (its UTF-8 bytes); [startswith],
      [replace] and [split] act on it as they do on code points;
    - a Python [dict] is an association list in insertion order whose
      keys are pairwise distinct ([Dict]);
    - a Python [set] of names is a duplicate-free list; its order stands
      for the iteration order of the set, on which no theorem depends;
    - an exception is a value of [exn], and code that may raise returns
      a [result];
    - [uuid.uuid4()], [datetime.now()], [datetime.utcnow()], the
      Event Hub client factory and [send_batch] are the environment:
      an [Env] gives the value of their n-th call, and the state counts
      the calls made so far. *)

From Stdlib Require Import String Ascii List ZArith Lia Bool Arith PeanoNat.
From Stdlib Require Import Permutation.
Import ListNotations.
Local Open Scope string_scope.
Local Open Scope list_scope.

Set Implicit Arguments.

(** ** Exceptions and results *)

Inductive exn : Type :=
| IndexError
| KeyError (key : string)
| RuntimeError (msg : string)
| ValueError (msg : string)
| EventHubError (msg : string).

Inductive result (A : Type) : Type :=
| Ok (a : A)
| Raise (e : exn).

Arguments Ok {A} a.
Arguments Raise {A} e.

Definition bind {A B : Type} (c : result A) (k : A -> result B) : result B :=
  match c with
  | Ok a => k a
  | Raise e => Raise e
  end.

Notation "x <- c ;; k" := (bind c (fun x => k))
  (at level 61, c at next level, right associativity).
Notation "' pat <- c ;; k" := (bind c (fun x => match x with pat => k end))
  (at level 61, pat pattern, c at next level, right associativity).

Definition raises {A : Type} (c : result A) : bool :=
  match c with Ok _ => false | Raise _ => true end.

(** ** Python strings *)

Module PyStr.

(** [s.startswith(p)] *)
Definition startswith (s p : string) : bool := String.prefix p s.

(** [s.replace(old, empty)]: every non-overlapping occurrence of [old],
    found from the left, is removed.  [skip] counts the characters of
    an occurrence still to be dropped. *)
Fixpoint remove_from (old : string) (skip : nat) (s : string) : string :=
  match s with
  | EmptyString => EmptyString
  | String c s' =>
      match skip with
      | S k => remove_from old k s'
      | O =>
          if negb (String.eqb old EmptyString) && String.prefix old s
          then remove_from old (String.length old - 1) s'
          else String c (remove_from old 0 s')
      end
  end.

Definition remove_all (s old : string) : string := remove_from old 0 s.

(** [s.split(sep)] for a one-character separator. *)
Fixpoint split (sep : ascii) (s : string) : list string :=
  match s with
  | EmptyString => [EmptyString]
  | String c s' =>
      if Ascii.eqb c sep then EmptyString :: split sep s'
      else match split sep s' with
           | [] => [String c EmptyString]
           | w :: ws => String c w :: ws
           end
  end.

Definition comma : ascii := ","%char.

End PyStr.

(** ** Python dicts and sets *)

Module Dict.
Section Dict.
Variable V : Type.

Definition t : Type := list (string * V).

Definition empty : t := [].

(** [d.get(k)] *)
Fixpoint get (k : string) (d : t) : option V :=
  match d with
  | [] => None
  | (k', v) :: d' => if String.eqb k' k then Some v else get k d'
  end.

(** [k in d] *)
Definition mem (k : string) (d : t) : bool :=
  match get k d with Some _ => true | None => false end.

(** [d[k]] *)
Definition index (k : string) (d : t) : result V :=
  match get k d with
  | Some v => Ok v
  | None => Raise (KeyError k)
  end.

(** [d[k] = v]: an existing key keeps its place. *)
Fixpoint set (k : string) (v : V) (d : t) : t :=
  match d with
  | [] => [(k, v)]
  | (k', v') :: d' =>
      if String.eqb k' k then (k, v) :: d' else (k', v') :: set k v d'
  end.

Definition keys (d : t) : list string := map fst d.
Definition len (d : t) : Z := Z.of_nat (length d).

(** The keys of a dict are pairwise distinct. *)
Definition wf (d : t) : Prop := NoDup (keys d).

End Dict.
End Dict.

Arguments Dict.empty {V}.

(** [set(l)] for a list of names. *)
Definition pyset (l : list string) : list string := nodup string_dec l.

(** ** MessageBuffer *)

Module MessageBuffer.
Section Buffer.
Variable A : Type.

(** [self.__buffer]: a list of lists. *)
Definition t : Type := list (list A).

(** [__init__] *)
Definition init : t := [[]].

(** [self.__buffer[0].append(msg)] *)
Definition append (msg : A) (b : t) : result t :=
  match b with
  | [] => Raise IndexError
  | l :: rest => Ok ((l ++ [msg]) :: rest)
  end.

(** [self.__buffer.append([]); return self.__buffer.pop(0)] *)
Definition get_list (b : t) : result (list A * t) :=
  match b ++ [[]] with
  | [] => Raise IndexError
  | l :: rest => Ok (l, rest)
  end.

(** [self.__buffer = [[]]] *)
Definition clear (b : t) : t := [[]].

(** [len(self.__buffer[0])] *)
Definition len (b : t) : result Z :=
  match b with
  | [] => Raise IndexError
  | l :: _ => Ok (Z.of_nat (length l))
  end.

(** A run of [append] calls, in order. *)
Fixpoint append_all (msgs : list A) (b : t) : result t :=
  match msgs with
  | [] => Ok b
  | m :: ms => b' <- append m b ;; append_all ms b'
  end.

(** The buffers a program can hold: what the methods build from a new one. *)
Inductive reachable : t -> Prop :=
| reach_init : reachable init
| reach_append : forall m b b',
    reachable b -> append m b = Ok b' -> reachable b'
| reach_get_list : forall b l b',
    reachable b -> get_list b = Ok (l, b') -> reachable b'
| reach_clear : forall b, reachable b -> reachable (clear b).

(** The messages waiting in the current batch. *)
Definition pending (b : t) : list A :=
  match b with
  | [] => []
  | l :: _ => l
  end.

End Buffer.
End MessageBuffer.

Arguments MessageBuffer.init {A}.


(** ** Messages and events *)

(** A message is a JSON-serializable dict. *)
#[local] Unset Elimination Schemes.
Inductive json : Type :=
| JNull
| JBool (b : bool)
| JInt (z : Z)
| JStr (s : string)
| JList (l : list json)
| JDict (d : list (string * json)).
#[local] Set Elimination Schemes.

Definition Message : Type := Dict.t json.

(** [EventData(json.dumps(msg).encode(encoding))]: the bytes are a
    function of the content [msg] has when [json.dumps] runs and of the
    encoding, and are kept as that pair. *)
Record EventData : Type := mkEventData {
  ed_body : Message;
  ed_encoding : string
}.

(** ** Dates *)

(** A naive [datetime]: its fields. *)
Record datetime : Type := mkDatetime {
  year : Z; month : Z; day : Z;
  hour : Z; minute : Z; second : Z; microsecond : Z
}.

Module Datetime.

Definition fields (d : datetime) : list Z :=
  [year d; month d; day d; hour d; minute d; second d; microsecond d].

(** Comparison of naive datetimes: field by field, the year first. *)
Fixpoint compare_fields (l1 l2 : list Z) : comparison :=
  match l1, l2 with
  | [], [] => Eq
  | [], _ :: _ => Lt
  | _ :: _, [] => Gt
  | x :: l1', y :: l2' =>
      match Z.compare x y with
      | Eq => compare_fields l1' l2'
      | c => c
      end
  end.

Definition compare (d1 d2 : datetime) : comparison :=
  compare_fields (fields d1) (fields d2).



Definition digit (n : Z) : ascii := ascii_of_N (Z.to_N (48 + n mod 10)).

(** The last [w] decimal digits of [n], the most significant first:
    a number below [10 ^ w] padded with zeros to the width [w]. *)
Fixpoint zfill (w : nat) (n : Z) : string :=
  match w with
  | O => EmptyString
  | S w' => zfill w' (n / 10) ++ String (digit n) EmptyString
  end.

(** [d.strftime("%Y-%m-%d %H:%M:%S.%f")] *)
Definition strftime (d : datetime) : string :=
  zfill 4 (year d) ++ "-" ++ zfill 2 (month d) ++ "-" ++ zfill 2 (day d)
  ++ " " ++ zfill 2 (hour d) ++ ":" ++ zfill 2 (minute d) ++ ":"
  ++ zfill 2 (second d) ++ "." ++ zfill 6 (microsecond d).

End Datetime.

(** ** The environment *)

(** An Event Hub producer client: what it was built from. *)
Record Client : Type := mkClient {
  connection_str : string;
  eventhub_name : string
}.

Record Env : Type := mkEnv {
  (** [str(uuid.uuid4())], at the n-th call of the environment *)
  uuid4 : nat -> string;
  (** [datetime.utcnow()] *)
  utcnow : nat -> datetime;
  (** [datetime.now()], in microseconds on the local time line *)
  now : nat -> Z;
  (** what [client.send_batch] raises, if it does *)
  send_batch_error : nat -> option exn;
  (** what [EventHubProducerClient.from_connection_string] raises, if it does *)
  connection_error : string -> string -> option exn
}.

(** ** The shared thread pool and the class state of TracktorProducer *)

(** A unit of work given to [apply_async]: the bound methods of the
    producer [job_self], whose [client] is never reassigned, and the
    batch. *)
Record Job : Type := mkJob {
  job_self : string;
  job_client : Client;
  job_args : list EventData
}.

Record ThreadPool : Type := mkThreadPool {
  processes : Z;
  queue : list Job
}.

Inductive LogRecord : Type :=
| LogRemoving (count : Z) (until : Z)
| LogWrote (count : Z)
| LogException (wait : Z) (e : exn).

Record Shared : Type := mkShared {
  (** calls of the environment made so far *)
  ticks : nat;
  (** [TracktorProducer.__thread_pool] *)
  __thread_pool : option ThreadPool;
  (** [ThreadPool(...)] constructions so far *)
  pools_created : nat;
  (** the [send_batch] calls made so far, the latest last *)
  send_calls : list (Client * list EventData);
  (** the records written to the log, the latest last *)
  log : list LogRecord
}.

Definition tick (s : Shared) : Shared :=
  mkShared (S (ticks s)) (__thread_pool s) (pools_created s) (send_calls s) (log s).


Definition set_pool (tp : option ThreadPool) (s : Shared) : Shared :=
  mkShared (ticks s) tp (pools_created s) (send_calls s) (log s).

Definition new_pool (tp : ThreadPool) (s : Shared) : Shared :=
  mkShared (ticks s) (Some tp) (S (pools_created s)) (send_calls s) (log s).

Definition record_send (c : Client) (batch : list EventData) (s : Shared) : Shared :=
  mkShared (ticks s) (__thread_pool s) (pools_created s) (send_calls s ++ [(c, batch)]) (log s).

Definition write_log (r : LogRecord) (s : Shared) : Shared :=
  mkShared (ticks s) (__thread_pool s) (pools_created s) (send_calls s) (log s ++ [r]).


(** [pool.apply_async(...)] *)
Definition apply_async (j : Job) (tp : ThreadPool) : ThreadPool :=
  mkThreadPool (processes tp) (queue tp ++ [j]).

(** ** TracktorProducer *)

Module TracktorProducer.

Record t : Type := mk {
  client : Client;
  name : string;
  encoding : string;
  buffer_size : Z;
  thread_pool_size : Z;
  (** [timedelta(seconds=self.wait_after_error)], in microseconds *)
  wait_after_error : Z;
  __message_buffer : MessageBuffer.t EventData;
  __blocked_until : Z
}.

Definition set_message_buffer (b : MessageBuffer.t EventData) (p : t) : t :=
  mk (client p) (name p) (encoding p) (buffer_size p) (thread_pool_size p)
     (wait_after_error p) b (__blocked_until p).

Definition set_blocked_until (z : Z) (p : t) : t :=
  mk (client p) (name p) (encoding p) (buffer_size p) (thread_pool_size p)
     (wait_after_error p) (__message_buffer p) z.

(** [__init__] *)
Definition init (env : Env) (client : Client) (name : string)
    (buffer_size : Z) (encoding : string) (thread_pool_size : Z)
    (wait_after_error : Z) (s : Shared) : t * Shared :=
  (mk client name encoding buffer_size thread_pool_size wait_after_error
      MessageBuffer.init (now env (ticks s)),
   tick s).

(** The property [thread_pool]: the pool, made at the first use. *)
Definition thread_pool (p : t) (s : Shared) : ThreadPool * Shared :=
  match __thread_pool s with
  | None =>
      let tp := mkThreadPool (thread_pool_size p) [] in
      (tp, new_pool tp s)
  | Some tp => (tp, s)
  end.

(** The property [is_blocked] *)
Definition is_blocked (env : Env) (p : t) (s : Shared) : bool * Shared :=
  (now env (ticks s) <? __blocked_until p, tick s)%Z.

(** [flush_messages] *)
Definition flush_messages (env : Env) (p : t) (s : Shared)
  : result (t * Shared) :=
  let (blocked, s1) := is_blocked env p s in
  if negb blocked then
    let (tp, s2) := thread_pool p s1 in
    '(batch, b) <- MessageBuffer.get_list (__message_buffer p) ;;
    Ok (set_message_buffer b p,
        set_pool (Some (apply_async (mkJob (name p) (client p) batch) tp)) s2)
  else
    n <- MessageBuffer.len (__message_buffer p) ;;
    Ok (set_message_buffer (MessageBuffer.clear (__message_buffer p)) p,
        write_log (LogRemoving n (__blocked_until p)) s1).

(** The two generated fields of [write_dict], set in the caller's
    dict; [t] counts the calls of the environment made before. *)
Definition enrich (env : Env) (t : nat) (msg : Message) : Message :=
  let message_id := uuid4 env t in
  let msg1 := Dict.set "message_id" (JStr message_id) msg in
  Dict.set "message_time"
           (JStr (Datetime.strftime (utcnow env (S t)))) msg1.

(** [write_dict] up to the append: the dict is enriched in place and
    its serialization is appended to the buffer. *)
Definition enqueue (env : Env) (msg : Message) (p : t) (s : Shared)
  : result (Message * t * Shared) :=
  let msg' := enrich env (ticks s) msg in
  b <- MessageBuffer.append (mkEventData msg' (encoding p)) (__message_buffer p) ;;
  Ok (msg', set_message_buffer b p, tick (tick s)).

(** The end of [write_dict]: the threshold check. *)
Definition flush_if_full (env : Env) (p : t) (s : Shared)
  : result (t * Shared) :=
  n <- MessageBuffer.len (__message_buffer p) ;;
  if (buffer_size p <=? n)%Z then flush_messages env p s else Ok (p, s).

(** [write_dict]: returns the caller's dict as the call leaves it. *)
Definition write_dict (env : Env) (msg : Message) (p : t) (s : Shared)
  : result (Message * t * Shared) :=
  '(msg', p1, s1) <- enqueue env msg p s ;;
  '(p2, s2) <- flush_if_full env p1 s1 ;;
  Ok (msg', p2, s2).


(** The messages waiting in the buffer of [p]. *)
Definition pending (p : t) : list EventData :=
  MessageBuffer.pending (__message_buffer p).

(** The buffer of [p] is one the methods of MessageBuffer can build. *)
Definition wf (p : t) : Prop := MessageBuffer.reachable (__message_buffer p).


(** [__put_eventhub_event], run by a worker of the pool: what it
    raises, if it does. *)
Definition put_eventhub_event (env : Env) (c : Client)
    (msg_list : list EventData) (s : Shared) : Shared * option exn :=
  let n := Z.of_nat (length msg_list) in
  if (0 <? n)%Z then
    let s1 := tick (record_send c msg_list s) in
    match send_batch_error env (ticks s) with
    | Some e => (s1, Some e)
    | None => (write_log (LogWrote n) s1, None)
    end
  else (write_log (LogWrote n) s, None).

(** [__put_error_callback] *)
Definition put_error_callback (env : Env) (e : exn) (p : t) (s : Shared)
  : t * Shared :=
  (set_blocked_until (now env (ticks s) + wait_after_error p)%Z p,
   write_log (LogException (wait_after_error p) e) (tick s)).

(** A worker runs the job of the producer [p]: the send, and the
    error callback when the send raises. *)
Definition run (env : Env) (msg_list : list EventData) (p : t) (s : Shared)
  : t * Shared :=
  match put_eventhub_event env (client p) msg_list s with
  | (s1, Some e) => put_error_callback env e p s1
  | (s1, None) => (p, s1)
  end.

(** A worker runs a queued job.  [objects] holds, by name, the
    producers that the bound methods of the jobs refer to; the error
    callback of a producer that is not among them has no effect on
    them. *)
Definition run_job (env : Env) (j : Job) (objects : Dict.t t) (s : Shared)
  : Dict.t t * Shared :=
  match put_eventhub_event env (job_client j) (job_args j) s with
  | (s1, Some e) =>
      match Dict.get (job_self j) objects with
      | Some p =>
          let (p', s2) := put_error_callback env e p s1 in
          (Dict.set (job_self j) p' objects, s2)
      | None => (objects, s1)
      end
  | (s1, None) => (objects, s1)
  end.

(** [pool.close(); pool.join()]: the queued jobs run to their end. *)
Fixpoint join (env : Env) (jobs : list Job) (objects : Dict.t t) (s : Shared)
  : Dict.t t * Shared :=
  match jobs with
  | [] => (objects, s)
  | j :: rest =>
      let (objects', s') := run_job env j objects s in
      join env rest objects' s'
  end.

(** The workers of the pool run every job that is queued; the pool
    stays open. *)
Definition work (env : Env) (objects : Dict.t t) (s : Shared)
  : Dict.t t * Shared :=
  match __thread_pool s with
  | Some tp =>
      let (objects', s') := join env (queue tp) objects s in
      (objects', set_pool (Some (mkThreadPool (processes tp) [])) s')
  | None => (objects, s)
  end.

(** [close_pool] *)
Definition close_pool (env : Env) (objects : Dict.t t) (s : Shared)
  : Dict.t t * Shared :=
  match __thread_pool s with
  | Some tp =>
      let (objects', s') := join env (queue tp) objects s in
      (objects', set_pool None s')
  | None => (objects, s)
  end.

End TracktorProducer.

(** ** MultiProducer *)

Module MultiProducer.

(** The configuration: sections of keys and values. *)
Definition Config : Type := Dict.t (Dict.t string).

(** A falcon [Request]: its query parameters. *)
Definition Request : Type := Dict.t string.

Definition get_param (req : Request) (name : string) : option string :=
  Dict.get name req.

(** The class attributes.  A set of producers is the list of their
    names, which are the keys of [__named_producers]. *)
Record t : Type := mk {
  __named_producers : Dict.t TracktorProducer.t;
  __producers : Dict.t (list string);
  __uri_stream_parameter : string
}.

Definition set_named_producers (named : Dict.t TracktorProducer.t) (r : t) : t :=
  mk named (__producers r) (__uri_stream_parameter r).

(** [producers] *)
Definition producers (req : Request) (r : t) : result (list string) :=
  let value := get_param req (__uri_stream_parameter r) in
  default <- Dict.index "default" (__producers r) ;;
  Ok match value with
     | Some v =>
         match Dict.get v (__producers r) with
         | Some ps => ps
         | None => default
         end
     | None => default
     end.

(** The loop of [write_dict]: one dict goes through every producer. *)
Fixpoint write_each (env : Env) (targets : list string) (msg : Message)
    (named : Dict.t TracktorProducer.t) (s : Shared)
  : result (Message * Dict.t TracktorProducer.t * Shared) :=
  match targets with
  | [] => Ok (msg, named, s)
  | n :: rest =>
      p <- Dict.index n named ;;
      '(msg', p', s') <- TracktorProducer.write_dict env msg p s ;;
      write_each env rest msg' (Dict.set n p' named) s'
  end.

(** [write_dict]: returns the caller's dict as the call leaves it. *)
Definition write_dict (env : Env) (msg : Message) (req : Request)
    (r : t) (s : Shared) : result (Message * t * Shared) :=
  targets <- producers req r ;;
  '(msg', named, s') <- write_each env targets msg (__named_producers r) s ;;
  Ok (msg', set_named_producers named r, s').

(** The loop of [flush_messages] *)
Fixpoint flush_each (env : Env) (names : list string)
    (named : Dict.t TracktorProducer.t) (s : Shared)
  : result (Dict.t TracktorProducer.t * Shared) :=
  match names with
  | [] => Ok (named, s)
  | n :: rest =>
      p <- Dict.index n named ;;
      '(p', s') <- TracktorProducer.flush_messages env p s ;;
      flush_each env rest (Dict.set n p' named) s'
  end.

(** [flush_messages] *)
Definition flush_messages (env : Env) (close_pool : bool) (r : t) (s : Shared)
  : result (t * Shared) :=
  '(named, s1) <- flush_each env (Dict.keys (__named_producers r))
                             (__named_producers r) s ;;
  if close_pool then
    let (named', s2) := TracktorProducer.close_pool env named s1 in
    Ok (set_named_producers named' r, s2)
  else Ok (set_named_producers named r, s1).

(** [get_eventhub_config] *)
Definition eventhub_sections (config_key_startswith : string)
    (acc : Dict.t (Dict.t string)) (item : string * Dict.t string)
  : Dict.t (Dict.t string) :=
  let (section, conf) := item in
  if PyStr.startswith section config_key_startswith
  then Dict.set (PyStr.remove_all section config_key_startswith) conf acc
  else acc.

Definition get_eventhub_config (configs : Config)
    (config_key_startswith : string) : result (Dict.t (Dict.t string)) :=
  let eventhub_config :=
    fold_left (eventhub_sections config_key_startswith) configs Dict.empty in
  if (Dict.len eventhub_config =? 0)%Z then
    Raise (RuntimeError
             ("No section name starting with '" ++ config_key_startswith ++ "'"))
  else Ok eventhub_config.

(** [get_uri_to_producer] *)
Definition uri_entries (acc : Dict.t (list string)) (item : string * string)
  : Dict.t (list string) :=
  let (switch, producer_set) := item in
  if String.eqb producer_set EmptyString then acc
  else Dict.set switch (pyset (PyStr.split PyStr.comma producer_set)) acc.

Definition get_uri_to_producer (configs : Config) (section_name : string)
  : result (Dict.t (list string)) :=
  section <- Dict.index section_name configs ;;
  let uri_to_producer := fold_left uri_entries section Dict.empty in
  if (Dict.len uri_to_producer =? 0)%Z then
    Raise (RuntimeError "No or only empty uri to producer matching found.")
  else if Dict.mem "default" uri_to_producer then Ok uri_to_producer
  else Ok (Dict.set "default" [] uri_to_producer).

(** [EventHubProducerClient.from_connection_string] *)
Definition from_connection_string (env : Env) (conn_str eventhub : string)
  : result Client :=
  match connection_error env conn_str eventhub with
  | Some e => Raise e
  | None => Ok (mkClient conn_str eventhub)
  end.

(** [single_config.get("encoding", "utf-8")] *)
Definition encoding_of (single_config : Dict.t string) : string :=
  match Dict.get "encoding" single_config with
  | Some e => e
  | None => "utf-8"
  end.

(** [EventHubProducerClient.from_connection_string(
      single_config["connection_str"],
      eventhub_name=single_config["eventhub_name"])] *)
Definition client_of (env : Env) (single_config : Dict.t string) : result Client :=
  conn_str <- Dict.index "connection_str" single_config ;;
  eventhub <- Dict.index "eventhub_name" single_config ;;
  from_connection_string env conn_str eventhub.

(** The first loop of [create_producers]: the producers are built. *)
Fixpoint build_producers (env : Env) (items : list (string * Dict.t string))
    (thread_pool_size buffer_size wait_after_error : Z)
    (named : Dict.t TracktorProducer.t) (s : Shared)
  : result (Dict.t TracktorProducer.t * Shared) :=
  match items with
  | [] => Ok (named, s)
  | (name, single_config) :: rest =>
      if Dict.mem name named then
        build_producers env rest thread_pool_size buffer_size
                        wait_after_error named s
      else
        client <- client_of env single_config ;;
        let (p, s') :=
          TracktorProducer.init env client name buffer_size
            (encoding_of single_config) thread_pool_size wait_after_error s in
        build_producers env rest thread_pool_size buffer_size
                        wait_after_error (Dict.set name p named) s'
  end.

(** [{cls.__named_producers[name] for name in producer_list}]: the
    producers are looked up in the order of the list, and the set of
    the objects found is the set of their names. *)
Fixpoint lookup_all (named : Dict.t TracktorProducer.t)
    (producer_list : list string) : result (list TracktorProducer.t) :=
  match producer_list with
  | [] => Ok []
  | name :: rest =>
      p <- Dict.index name named ;;
      ps <- lookup_all named rest ;;
      Ok (p :: ps)
  end.

Definition producer_set (named : Dict.t TracktorProducer.t)
    (producer_list : list string) : result (list string) :=
  ps <- lookup_all named producer_list ;;
  Ok (pyset (map TracktorProducer.name ps)).

(** The second loop of [create_producers]: the routing table. *)
Fixpoint assign_producers (items : list (string * list string))
    (named : Dict.t TracktorProducer.t) (table : Dict.t (list string))
  : result (Dict.t (list string)) :=
  match items with
  | [] => Ok table
  | (switch, producer_list) :: rest =>
      ps <- producer_set named producer_list ;;
      assign_producers rest named (Dict.set switch ps table)
  end.

(** [create_producers] *)
Definition create_producers (env : Env) (configs : Config)
    (uri_section producer_prefix : string)
    (thread_pool_size buffer_size wait_after_error : Z)
    (r : t) (s : Shared) : result (t * Shared) :=
  producer_config <- get_eventhub_config configs producer_prefix ;;
  switch_to_producer <- get_uri_to_producer configs uri_section ;;
  '(named, s') <- build_producers env producer_config thread_pool_size
                                  buffer_size wait_after_error
                                  (__named_producers r) s ;;
  table <- assign_producers switch_to_producer named (__producers r) ;;
  Ok (mk named table (__uri_stream_parameter r), s').

(** [__init__] *)
Definition init (env : Env) (config : Config)
    (uri_parameter_switch uri_to_producer_section_name
       producer_config_startswith : string)
    (thread_pool_size buffer_size wait_after_error : Z) (s : Shared)
  : result (t * Shared) :=
  create_producers env config uri_to_producer_section_name
    producer_config_startswith thread_pool_size buffer_size wait_after_error
    (mk Dict.empty Dict.empty uri_parameter_switch) s.

End MultiProducer.

(** ** What a shutdown sends *)






(** ** The property [thread_pool] run by several threads *)

Module Interleaving.

(** Where a thread stands in the property [thread_pool]: before the
    test [self.__class__.__thread_pool is None], before the
    construction and the assignment of the pool, before the [return],
    or after it, with the value returned. *)
Inductive pc : Type :=
| AtTest
| AtCreate
| AtReturn
| Returned (tp : option ThreadPool).

Record thread : Type := mkThread {
  th_self : TracktorProducer.t;
  th_pc : pc
}.

(** The class state, the class attribute [thread_lock] (held or not),
    and the threads that are evaluating the property. *)
Record state : Type := mkState {
  st_shared : Shared;
  thread_lock : bool;
  st_threads : list thread
}.

(** One step of a thread.  The source never acquires [thread_lock]. *)
Definition step_thread (th : thread) (s : Shared) : thread * Shared :=
  match th_pc th with
  | AtTest =>
      match __thread_pool s with
      | None => (mkThread (th_self th) AtCreate, s)
      | Some _ => (mkThread (th_self th) AtReturn, s)
      end
  | AtCreate =>
      (mkThread (th_self th) AtReturn,
       new_pool (mkThreadPool (TracktorProducer.thread_pool_size (th_self th)) []) s)
  | AtReturn => (mkThread (th_self th) (Returned (__thread_pool s)), s)
  | Returned _ => (th, s)
  end.

Fixpoint update (i : nat) (th : thread) (l : list thread) : list thread :=
  match l, i with
  | [], _ => []
  | _ :: l', O => th :: l'
  | x :: l', S i' => x :: update i' th l'
  end.

(** The scheduler lets the thread [i] make its next step. *)
Definition step (st : state) (i : nat) : state :=
  match nth_error (st_threads st) i with
  | Some th =>
      let (th', s') := step_thread th (st_shared st) in
      mkState s' (thread_lock st) (update i th' (st_threads st))
  | None => st
  end.

Definition run (schedule : list nat) (st : state) : state :=
  fold_left step schedule st.

End Interleaving.

(** ** MessageBuffer used by several threads *)

(** The calls [append] and [get_list] are not atomic: [append] loads
    [self.__buffer[0]] and then calls [append] on the list it got,
    [get_list] appends a new list to [self.__buffer] and then pops the
    first one.  Each of these four steps is atomic, and another thread
    may run between any two of them.  Lists are objects: a thread that
    has loaded one appends to it wherever it is by then. *)
Module Racing.
Section Racing.
Variable A : Type.

(** The inner lists by address, and [self.__buffer], a list of
    addresses. *)
Record heap : Type := mkHeap {
  objects : list (list A);
  outer : list nat
}.

(** A thread in [append(msg)]. *)
Inductive appender : Type :=
| ToLoad (msg : A)
| ToAppend (msg : A) (ref : nat)
| Appended
| AppendFailed.

(** The thread in [get_list()]. *)
Inductive drainer : Type :=
| ToInstall
| ToPop
| Drained (ref : nat)
| DrainFailed.

Record state : Type := mkState {
  st_heap : heap;
  st_appenders : list appender;
  st_drainer : drainer
}.

Inductive turn : Type :=
| Appender (i : nat)
| Drainer.

(** [objects[r].append(msg)] *)
Fixpoint append_at (r : nat) (msg : A) (objs : list (list A)) : list (list A) :=
  match objs, r with
  | [], _ => []
  | l :: rest, O => (l ++ [msg]) :: rest
  | l :: rest, S r' => l :: append_at r' msg rest
  end.

Definition step_appender (a : appender) (h : heap) : appender * heap :=
  match a with
  | ToLoad msg =>
      match outer h with
      | r :: _ => (ToAppend msg r, h)
      | [] => (AppendFailed, h)
      end
  | ToAppend msg r => (Appended, mkHeap (append_at r msg (objects h)) (outer h))
  | Appended => (Appended, h)
  | AppendFailed => (AppendFailed, h)
  end.

Definition step_drainer (d : drainer) (h : heap) : drainer * heap :=
  match d with
  | ToInstall =>
      (ToPop, mkHeap (objects h ++ [[]]) (outer h ++ [length (objects h)]))
  | ToPop =>
      match outer h with
      | r :: rest => (Drained r, mkHeap (objects h) rest)
      | [] => (DrainFailed, h)
      end
  | Drained r => (Drained r, h)
  | DrainFailed => (DrainFailed, h)
  end.

Fixpoint update (i : nat) (a : appender) (l : list appender) : list appender :=
  match l, i with
  | [], _ => []
  | _ :: l', O => a :: l'
  | x :: l', S i' => x :: update i' a l'
  end.

Definition step (st : state) (t : turn) : state :=
  match t with
  | Appender i =>
      match nth_error (st_appenders st) i with
      | Some a =>
          let (a', h') := step_appender a (st_heap st) in
          mkState h' (update i a' (st_appenders st)) (st_drainer st)
      | None => st
      end
  | Drainer =>
      let (d', h') := step_drainer (st_drainer st) (st_heap st) in
      mkState h' (st_appenders st) d'
  end.

Definition run (schedule : list turn) (st : state) : state :=
  fold_left step schedule st.

(** A buffer that holds [l0], one thread for each message of [msgs]
    about to append it, and one thread about to drain. *)
Definition start (l0 msgs : list A) : state :=
  mkState (mkHeap [l0] [0%nat]) (map ToLoad msgs) ToInstall.

(** The message a thread has still to append. *)
Definition in_flight (a : appender) : list A :=
  match a with
  | ToLoad msg => [msg]
  | ToAppend msg _ => [msg]
  | Appended => []
  | AppendFailed => []
  end.

Definition all_in_flight (l : list appender) : list A := flat_map in_flight l.

(** The list at an address, and the current batch [self.__buffer[0]]. *)
Definition deref (h : heap) (r : nat) : list A := nth r (objects h) [].

Definition current (h : heap) : list A :=
  match outer h with
  | r :: _ => deref h r
  | [] => []
  end.

(** The references the threads hold are addresses of lists. *)
Definition ref_ok (h : heap) (a : appender) : Prop :=
  match a with
  | ToAppend _ r => (r < length (objects h))%nat
  | AppendFailed => False
  | _ => True
  end.

(** The shape of [self.__buffer] at each point of [get_list]. *)
Definition shape (h : heap) (d : drainer) : Prop :=
  match d with
  | ToInstall => length (objects h) = 1%nat /\ outer h = [0%nat]
  | ToPop => length (objects h) = 2%nat /\ outer h = [0%nat; 1%nat]
  | Drained r => r = 0%nat /\ length (objects h) = 2%nat /\ outer h = [1%nat]
  | DrainFailed => False
  end.

(** What every step keeps: no message is lost or doubled, the threads
    hold addresses of lists, and [self.__buffer] has the shape that
    goes with the point [get_list] has reached. *)
Definition inv (l0 msgs : list A) (st : state) : Prop :=
  Permutation (concat (objects (st_heap st)) ++ all_in_flight (st_appenders st))
              (l0 ++ msgs) /\
  Forall (ref_ok (st_heap st)) (st_appenders st) /\
  shape (st_heap st) (st_drainer st).

End Racing.
End Racing.

(** ** Configurations that cannot be built *)

(** The destination sections, under the names [get_eventhub_config]
    gives them. *)
Definition destinations (configs : MultiProducer.Config) (prefix : string)
  : Dict.t (Dict.t string) :=
  fold_left (MultiProducer.eventhub_sections prefix) configs Dict.empty.

(** No section name starts with the prefix. *)
Definition no_destination_sections (configs : MultiProducer.Config)
    (prefix : string) : Prop :=
  forall section conf,
    In (section, conf) configs -> PyStr.startswith section prefix = false.

(** The routing section is missing, or gives no selector a name. *)
Definition no_mapping (configs : MultiProducer.Config) (usection : string) : Prop :=
  match Dict.get usection configs with
  | None => True
  | Some section => forall sw v, In (sw, v) section -> v = EmptyString
  end.

(** Some selector lists a name that no destination section has. *)
Definition undefined_destination (configs : MultiProducer.Config)
    (usection prefix : string) : Prop :=
  exists section sw v n,
    Dict.get usection configs = Some section /\
    In (sw, v) section /\ v <> EmptyString /\
    In n (PyStr.split PyStr.comma v) /\
    forall sec conf,
      In (sec, conf) configs -> PyStr.startswith sec prefix = true ->
      PyStr.remove_all sec prefix <> n.

(** Some destination section does not give a client: a key is missing
    or the connection string is refused. *)
Definition unusable_destination (env : Env) (configs : MultiProducer.Config)
    (prefix : string) : Prop :=
  exists n conf,
    Dict.get n (destinations configs prefix) = Some conf /\
    raises (MultiProducer.client_of env conf) = true.

(** ** Well-formed registries *)

(** The invariant of the class state that [__init__] establishes: the
    names are distinct, every buffer is one the methods build, the
    routing table has a default entry, and its sets hold names of
    producers, each once. *)
Definition registry_ok (r : MultiProducer.t) : Prop :=
  Dict.wf (MultiProducer.__named_producers r) /\
  (forall n p, Dict.get n (MultiProducer.__named_producers r) = Some p ->
               TracktorProducer.wf p) /\
  (exists d, Dict.get "default" (MultiProducer.__producers r) = Some d) /\
  (forall sw ps, Dict.get sw (MultiProducer.__producers r) = Some ps ->
     NoDup ps /\
     forall n, In n ps -> Dict.mem n (MultiProducer.__named_producers r) = true).


(** ** Concrete configurations and environments *)

Module Scenario.

Definition xs (n : nat) : string := string_of_list_ascii (repeat "x"%char n).

Definition clock (n : nat) : datetime :=
  mkDatetime 2024 1 2 3 4 5 (Z.min (Z.of_nat n) 999999).

(** Every send succeeds; the local time is the count of calls. *)
Definition env_ok : Env :=
  mkEnv xs clock Z.of_nat (fun _ => None) (fun _ _ => None).

(** Every send fails. *)
Definition env_down : Env :=
  mkEnv xs clock Z.of_nat
        (fun _ => Some (EventHubError "unreachable")) (fun _ _ => None).

Definition s0 : Shared := mkShared 0 None 0 [] [].



Definition m1 : Message := [("event", JStr "view")].
Definition m2 : Message := [("event", JStr "click")].
Definition m3 : Message := [("event", JStr "buy"); ("price", JInt 3)].

(** Two destinations, batches of 3, the routing of the scenario of the
    specification. *)
Definition config : MultiProducer.Config :=
  [("producer_p1", [("connection_str", "Endpoint=sb://one"); ("eventhub_name", "hub1")]);
   ("producer_p2", [("connection_str", "Endpoint=sb://two"); ("eventhub_name", "hub2")]);
   ("uri_to_producer", [("x", "p1,p2"); ("default", EmptyString)])].

Definition build (env : Env) (c : MultiProducer.Config)
  : result (MultiProducer.t * Shared) :=
  MultiProducer.init env c "eh" "uri_to_producer" "producer_" 25 3 10000000 s0.

Definition req (v : string) : MultiProducer.Request := [("eh", v)].

(** A destination section without a connection string. *)
Definition config_no_connection : MultiProducer.Config :=
  [("producer_p1", [("eventhub_name", "hub1")]);
   ("uri_to_producer", [("x", "p1")])].

Definition empty_registry : MultiProducer.t :=
  MultiProducer.mk Dict.empty Dict.empty "eh".

(** The registry of [config], and the state its construction leaves. *)
Definition r0 : MultiProducer.t :=
  match build env_ok config with
  | Ok (r, _) => r
  | Raise _ => empty_registry
  end.

Definition s1 : Shared :=
  match build env_ok config with
  | Ok (_, s) => s
  | Raise _ => s0
  end.

(** The stream is down: three events reach the threshold of p1 and p2,
    the workers run the two jobs, both sends fail and both producers
    are blocked for ten seconds; then a fourth event arrives. *)
Definition outage : result (Message * MultiProducer.t * Shared) :=
  '(r, s) <- build env_down config ;;
  '(_, r, s) <- MultiProducer.write_dict env_down m1 (req "x") r s ;;
  '(_, r, s) <- MultiProducer.write_dict env_down m2 (req "x") r s ;;
  '(_, r, s) <- MultiProducer.write_dict env_down m3 (req "x") r s ;;
  let (named, s) :=
    TracktorProducer.work env_down (MultiProducer.__named_producers r) s in
  MultiProducer.write_dict env_down m1 (req "x")
    (MultiProducer.set_named_producers named r) s.

Definition r_outage : MultiProducer.t :=
  match outage with
  | Ok (_, r, _) => r
  | Raise _ => empty_registry
  end.

Definition s_outage : Shared :=
  match outage with
  | Ok (_, _, s) => s
  | Raise _ => s0
  end.

End Scenario.

(** ** Parts of strings *)

(** The separator does not occur in the part. *)
Definition free (sep : ascii) (part : string) : Prop :=
  ~ In sep (list_ascii_of_string part).

(** ** Retargeting segments ([api_calls.py]) *)

Module MessageApiCall.

(** [str.lower] on the letters of ASCII, which is what it is on an
    ASCII string. *)
Definition lower_char (c : ascii) : ascii :=
  let n := nat_of_ascii c in
  if ((65 <=? n) && (n <=? 90))%nat then ascii_of_nat (n + 32) else c.

Fixpoint lower (s : string) : string :=
  match s with
  | EmptyString => EmptyString
  | String c s' => String (lower_char c) (lower s')
  end.

Definition is_ascii (s : string) : Prop :=
  Forall (fun c => (nat_of_ascii c < 128)%nat) (list_ascii_of_string s).

(** A capital letter of ASCII occurs in the string. *)
Definition has_capital (s : string) : Prop :=
  exists c, In c (list_ascii_of_string s) /\ (65 <= nat_of_ascii c <= 90)%nat.

(** [s[n:]] *)
Fixpoint drop (n : nat) (s : string) : string :=
  match n, s with
  | O, _ => s
  | S _, EmptyString => EmptyString
  | S k, String _ s' => drop k s'
  end.

(** [segment[len(prefix) if segment.startswith(prefix) else 0:]] *)
Definition strip (segment prefix : string) : string :=
  drop (if PyStr.startswith segment prefix then String.length prefix else 0)
       segment.

(** [_clean_segment_name] *)
Definition _clean_segment_name (rt_prefix_truncate_list : list string)
    (segment : string) : string :=
  fold_left strip rt_prefix_truncate_list (lower segment).

(** The shared settings that [set_retargeting_segment] reads. *)
Record settings : Type := mkSettings {
  retargeting_query_parameter : string;
  retargeting_cookie_name : string;
  retargeting_segment_limit : Z;
  rt_prefix_truncate_list : list string
}.

(** [segment == x] for an element of the decoded cookie. *)
Definition is_segment (segment : string) (x : json) : bool :=
  match x with
  | JStr s => String.eqb s segment
  | _ => false
  end.

(** [while len(seg_list) > limit: seg_list.pop(0)] *)
Fixpoint trim (limit : Z) (seg_list : list json) : result (list json) :=
  match seg_list with
  | [] => if (limit <? 0)%Z then Raise IndexError else Ok []
  | _ :: rest =>
      if (limit <? Z.of_nat (length seg_list))%Z then trim limit rest
      else Ok seg_list
  end.

(** [set_retargeting_segment], given what [consent.retargeting] is and
    what [cookies.decode_dict] does: the list that is written to the
    retargeting cookie, or [None] when the response is left alone. *)
Definition set_retargeting_segment (decode_dict : string -> json)
    (cfg : settings) (consent_retargeting : bool)
    (params cookies : Dict.t string) : result (option (list json)) :=
  match Dict.get (retargeting_query_parameter cfg) params with
  | None => Ok None
  | Some value =>
      if negb consent_retargeting then Ok None
      else
        let segment := _clean_segment_name (rt_prefix_truncate_list cfg) value in
        let seg_list :=
          match Dict.get (retargeting_cookie_name cfg) cookies with
          | Some c =>
              match decode_dict c with
              | JList l => l
              | _ => []
              end
          | None => []
          end in
        if existsb (is_segment segment) seg_list then Ok None
        else
          l <- trim (retargeting_segment_limit cfg) (seg_list ++ [JStr segment]) ;;
          Ok (Some l)
  end.

End MessageApiCall.

(** ** Addresses ([ipmagic.py]) *)

Module IpMagic.

Inductive family : Type :=
| AF_INET
| AF_INET6.

Definition byte_len (f : family) : nat :=
  match f with
  | AF_INET => 4
  | AF_INET6 => 16
  end.

(** [ip.count(c)] *)
Fixpoint count (c : ascii) (s : string) : nat :=
  match s with
  | EmptyString => 0
  | String d s' => if Ascii.eqb d c then S (count c s') else count c s'
  end.

(** The address family [microcelling] takes the string for. *)
Definition family_of (ip : string) : option family :=
  if (count "."%char ip =? 3)%nat then Some AF_INET
  else if (2 <=? count ":"%char ip)%nat then Some AF_INET6
  else None.

(** [int.from_bytes(bs, byteorder="little")] *)
Fixpoint from_bytes_little (bs : list Byte.byte) : Z :=
  match bs with
  | [] => 0
  | b :: rest => Z.of_N (Byte.to_N b) + 256 * from_bytes_little rest
  end.

(** [n.bit_length()] *)
Definition bit_length (n : Z) : Z :=
  if (n =? 0)%Z then 0 else Z.log2 (Z.abs n) + 1.

Definition byte_of (n : Z) : Byte.byte :=
  match Byte.of_N (Z.to_N (n mod 256)) with
  | Some b => b
  | None => Byte.x00
  end.

(** [n.to_bytes(length, byteorder="little")] for an [n] that is not
    negative and fits. *)
Fixpoint to_bytes_little (length : nat) (n : Z) : list Byte.byte :=
  match length with
  | O => []
  | S k => byte_of n :: to_bytes_little k (n / 256)
  end.

(** The exceptions that the [except] clauses of [microcelling] do not
    catch. *)
Inductive error : Type :=
| ZeroDivisionError
| OverflowError.

Inductive outcome : Type :=
| Returned (r : option string)
| Raised (e : error).

(** [(n.bit_length() + 7) // 8]: the number of bytes [n] is written
    with. *)
Definition byte_count (n : Z) : nat :=
  Z.to_nat ((bit_length n + 7) / 8).

(** The bytes [microcelling] hands to [inet_ntop]. *)
Definition microcelled_byte_ip (len : nat) (microcelled_int_ip : Z)
  : list Byte.byte :=
  let microcelled_bytes :=
    to_bytes_little (byte_count microcelled_int_ip) microcelled_int_ip in
  repeat Byte.x00 (len - length microcelled_bytes) ++ microcelled_bytes.

Section Sockets.
(** [socket.inet_pton] and [socket.inet_ntop]; [None] when they raise
    [OSError] or [ValueError]. *)
Variable inet_pton : family -> string -> option (list Byte.byte).
Variable inet_ntop : family -> list Byte.byte -> option string.

(** [microcelling] *)
Definition microcelling (modulo : Z) (ip : string) : outcome :=
  match family_of ip with
  | None => Returned None
  | Some address_family =>
      match inet_pton address_family ip with
      | None => Returned None
      | Some bs =>
          let int_ip := from_bytes_little bs in
          if (modulo =? 0)%Z then Raised ZeroDivisionError
          else
            let microcelled_int_ip := (int_ip - int_ip mod modulo)%Z in
            if (microcelled_int_ip <? 0)%Z then Raised OverflowError
            else
              Returned
                (inet_ntop address_family
                   (microcelled_byte_ip (byte_len address_family)
                                        microcelled_int_ip))
      end
  end.

End Sockets.

(** [s.rsplit(sep, 1)[0]]: the text before the last separator, or
    [None] when there is no separator. *)
Fixpoint before_last (sep : ascii) (s : string) : option string :=
  match s with
  | EmptyString => None
  | String c s' =>
      match before_last sep s' with
      | Some h => Some (String c h)
      | None => if Ascii.eqb c sep then Some EmptyString else None
      end
  end.

Definition rsplit_head (sep : ascii) (s : string) : string :=
  match before_last sep s with
  | Some h => h
  | None => s
  end.

Definition _INVALID_STRING : string := "invalid_ip".
Definition _IPv6_STRING : string := "ipv6".

(** [geo_location_ip], given the version [ip_address] finds, [None]
    when it raises [ValueError]. *)
Definition geo_location_ip (ip_version : string -> option Z) (ip_str : string)
  : string :=
  match ip_version ip_str with
  | None => _INVALID_STRING
  | Some version =>
      if (version =? 6)%Z then _IPv6_STRING
      else (rsplit_head "."%char ip_str ++ ".0")%string
  end.

End IpMagic.

Unset Implicit Arguments.

(** ** Properties of dicts *)

Section DictFacts.
Variable V : Type.
Implicit Types (d : Dict.t V) (k : string) (v : V).

Lemma get_set_same k v d : Dict.get k (Dict.set k v d) = Some v.
Proof.
  induction d as [| [k' v'] d IH]; cbn.
  - now rewrite String.eqb_refl.
  - destruct (String.eqb k' k) eqn:E; cbn.
    + now rewrite String.eqb_refl.
    + now rewrite E.
Qed.

Lemma get_set_other k k' v d :
  k <> k' -> Dict.get k' (Dict.set k v d) = Dict.get k' d.
Proof.
  intros Hne. induction d as [| [k0 v0] d IH]; cbn.
  - apply String.eqb_neq in Hne. now rewrite Hne.
  - destruct (String.eqb k0 k) eqn:E; cbn.
    + apply String.eqb_eq in E. subst k0.
      apply String.eqb_neq in Hne. now rewrite Hne.
    + now rewrite IH.
Qed.

Lemma get_set k k' v d :
  Dict.get k' (Dict.set k v d) =
  if String.eqb k k' then Some v else Dict.get k' d.
Proof.
  destruct (String.eqb k k') eqn:E.
  - apply String.eqb_eq in E. subst. apply get_set_same.
  - apply String.eqb_neq in E. now apply get_set_other.
Qed.

Lemma mem_In k d : Dict.mem k d = true <-> In k (Dict.keys d).
Proof.
  unfold Dict.mem, Dict.keys.
  induction d as [| [k' v'] d IH]; cbn.
  - split; [discriminate | tauto].
  - destruct (String.eqb k' k) eqn:E.
    + apply String.eqb_eq in E. subst. tauto.
    + apply String.eqb_neq in E. rewrite IH. split; [tauto |].
      intros [H | H]; [contradiction | exact H].
Qed.

Lemma mem_false_In k d : Dict.mem k d = false <-> ~ In k (Dict.keys d).
Proof.
  rewrite <- mem_In. destruct (Dict.mem k d); split; congruence.
Qed.

Lemma get_Some_mem k v d : Dict.get k d = Some v -> Dict.mem k d = true.
Proof. unfold Dict.mem. now intros ->. Qed.

Lemma mem_get k d : Dict.mem k d = true -> exists v, Dict.get k d = Some v.
Proof. unfold Dict.mem. destruct (Dict.get k d); [eauto | discriminate]. Qed.

Lemma keys_set k v d :
  Dict.keys (Dict.set k v d) =
  if Dict.mem k d then Dict.keys d else Dict.keys d ++ [k].
Proof.
  unfold Dict.mem, Dict.keys.
  induction d as [| [k' v'] d IH]; cbn.
  - reflexivity.
  - destruct (String.eqb k' k) eqn:E; cbn.
    + apply String.eqb_eq in E. now subst.
    + rewrite IH. now destruct (Dict.get k d).
Qed.

Lemma wf_set k v d : Dict.wf d -> Dict.wf (Dict.set k v d).
Proof.
  unfold Dict.wf. intros Hwf. rewrite keys_set.
  destruct (Dict.mem k d) eqn:E; [exact Hwf |].
  apply mem_false_In in E.
  apply NoDup_app; [exact Hwf | repeat constructor; intros [] | ].
  intros x Hx [<- | []]. contradiction.
Qed.

Lemma get_In k v d : Dict.get k d = Some v -> In (k, v) d.
Proof.
  induction d as [| [k' v'] d IH]; cbn; [discriminate |].
  destruct (String.eqb k' k) eqn:E.
  - apply String.eqb_eq in E. subst. intros [= ->]. now left.
  - intros H. right. now apply IH.
Qed.

Lemma In_get k v d : Dict.wf d -> In (k, v) d -> Dict.get k d = Some v.
Proof.
  unfold Dict.wf, Dict.keys.
  induction d as [| [k' v'] d IH]; cbn; [tauto |].
  intros Hnd [[= -> ->] | Hin].
  - now rewrite String.eqb_refl.
  - inversion Hnd as [| ? ? Hnot Hnd']; subst.
    destruct (String.eqb k' k) eqn:E.
    + apply String.eqb_eq in E. subst. exfalso. apply Hnot.
      apply in_map_iff. now exists (k, v).
    + now apply IH.
Qed.

Lemma dict_set_In k k0 v v0 d :
  In (k, v) (Dict.set k0 v0 d) -> (k = k0 /\ v = v0) \/ In (k, v) d.
Proof.
  induction d as [| [k1 v1] d IH]; cbn.
  - intros [[= <- <-] | []]. now left.
  - destruct (String.eqb k1 k0); cbn.
    + intros [[= <- <-] | H]; [now left | right; now right].
    + intros [H | H]; [right; now left |].
      destruct (IH H); [now left | right; now right].
Qed.

Lemma not_In_get_None k d : ~ In k (Dict.keys d) -> Dict.get k d = None.
Proof.
  intros H. apply mem_false_In in H. unfold Dict.mem in H.
  now destruct (Dict.get k d).
Qed.

End DictFacts.

(** ** Properties of MessageBuffer *)

Section BufferFacts.
Variable A : Type.
Implicit Types (b : MessageBuffer.t A) (l ms : list A).

Lemma reachable_single b :
  MessageBuffer.reachable b -> exists l, b = [l].
Proof.
  induction 1 as [| m b b' _ [l ->] Happ | b l0 b' _ [l ->] Hget | b _ _].
  - exists []. reflexivity.
  - cbn in Happ. injection Happ as <-. eauto.
  - cbn in Hget. injection Hget as _ <-. eauto.
  - exists []. reflexivity.
Qed.

Lemma append_all_single ms : forall l,
  MessageBuffer.append_all ms [l] = Ok [l ++ ms].
Proof.
  induction ms as [| m ms IH]; intros l; cbn.
  - now rewrite app_nil_r.
  - rewrite IH, <- app_assoc. reflexivity.
Qed.


End BufferFacts.

(** ** MessageBuffer under interleaving *)

Section RacingFacts.
Variable A : Type.
Implicit Types (h : Racing.heap A) (a : Racing.appender A)
         (l : list (Racing.appender A)).

Import Racing.

Lemma update_same l : forall i a, nth_error l i = Some a -> update i a l = l.
Proof.
  induction l as [| x l IH]; intros [| i] a H; cbn in *; try discriminate.
  - now injection H as ->.
  - f_equal. now apply IH.
Qed.

Lemma update_Forall (P : appender A -> Prop) l : forall i a,
  Forall P l -> P a -> Forall P (update i a l).
Proof.
  induction l as [| x l IH]; intros [| i] a Hl Ha; cbn; try exact Hl;
    inversion Hl; subst; constructor; auto.
Qed.

(** Replacing a thread moves what it has in flight. *)
Lemma in_flight_update l : forall i a a',
  nth_error l i = Some a ->
  Permutation (in_flight a' ++ all_in_flight l)
              (in_flight a ++ all_in_flight (update i a' l)).
Proof.
  unfold all_in_flight.
  induction l as [| x l IH]; intros [| i] a a' H; cbn in *; try discriminate.
  - injection H as ->. apply Permutation_app_swap_app.
  - rewrite (Permutation_app_swap_app (in_flight a') (in_flight x)).
    rewrite (Permutation_app_swap_app (in_flight a) (in_flight x)).
    apply Permutation_app_head. now apply IH.
Qed.

Lemma append_at_length (objs : list (list A)) : forall r msg,
  length (append_at r msg objs) = length objs.
Proof.
  induction objs as [| o objs IH]; intros [| r] msg; cbn; auto.
Qed.

(** An append to a list of the heap adds the message to the heap. *)
Lemma append_at_concat (objs : list (list A)) : forall r msg,
  (r < length objs)%nat ->
  Permutation (concat (append_at r msg objs)) (msg :: concat objs).
Proof.
  induction objs as [| o objs IH]; intros [| r] msg Hr; cbn in *; try lia.
  - rewrite <- app_assoc. cbn. symmetry. apply Permutation_middle.
  - rewrite (IH r msg) by lia. symmetry. apply Permutation_middle.
Qed.

Lemma inv_start (l0 msgs : list A) : inv l0 msgs (start l0 msgs).
Proof.
  unfold inv, start. cbn. rewrite app_nil_r. repeat split.
  - apply Permutation_app_head. induction msgs as [| m ms IH]; cbn; auto.
  - induction msgs as [| m ms IH]; cbn; constructor; cbn; auto.
Qed.

Lemma shape_outer h d : shape h d -> exists r rest,
  outer h = r :: rest /\ (r < length (objects h))%nat.
Proof.
  destruct d; cbn; [intros [Hl ->] | intros [Hl ->] | intros (_ & Hl & ->) | tauto];
    eexists _, _; (split; [reflexivity | lia]).
Qed.

Lemma inv_step (l0 msgs : list A) (st : state A) (t : turn) :
  inv l0 msgs st -> inv l0 msgs (step st t).
Proof.
  destruct st as [h l d]. intros (Hperm & Hrefs & Hshape). cbn in *.
  destruct t as [i |]; cbn [step st_appenders st_heap st_drainer].
  - destruct (nth_error l i) as [a |] eqn:Hi; [| now repeat split].
    assert (Ha : ref_ok h a).
    { eapply Forall_forall; [exact Hrefs | eapply nth_error_In, Hi]. }
    destruct a as [msg | msg r | |]; cbn [step_appender].
    + destruct (shape_outer h d Hshape) as (r & rest & Hout & Hr).
      rewrite Hout. repeat split; cbn.
      * rewrite <- Hperm. apply Permutation_app_head.
        apply (Permutation_app_inv_l [msg]).
        exact (Permutation_sym
                 (in_flight_update l i (ToLoad msg) (ToAppend msg r) Hi)).
      * now apply update_Forall.
      * exact Hshape.
    + cbn in Ha. repeat split; cbn.
      * rewrite <- Hperm.
        rewrite (append_at_concat (objects h) r msg Ha).
        pose proof (in_flight_update l i (ToAppend msg r) (Appended A) Hi) as Hf.
        cbn in Hf. unfold all_in_flight in *. rewrite Hf.
        apply Permutation_middle.
      * apply update_Forall; [| exact I].
        eapply Forall_impl; [| exact Hrefs].
        intros [| ? r' | |]; cbn; auto. now rewrite append_at_length.
      * destruct d; cbn in *; rewrite ?append_at_length; tauto.
    + rewrite (update_same l i _ Hi). now repeat split.
    + contradiction.
  - destruct d as [| | r |]; cbn [step_drainer] in *.
    + destruct Hshape as [Hl Hout]. repeat split; cbn.
      * rewrite concat_app. cbn. now rewrite app_nil_r.
      * eapply Forall_impl; [| exact Hrefs].
        intros [| ? r' | |]; cbn; auto. rewrite length_app. cbn. lia.
      * rewrite length_app, Hl. reflexivity.
      * now rewrite Hout, Hl.
    + destruct Hshape as [Hl Hout]. rewrite Hout.
      repeat split; cbn; assumption.
    + destruct Hshape as (Hr & Hl & Hout). now repeat split.
    + contradiction.
Qed.

Lemma inv_run (l0 msgs : list A) (schedule : list turn) : forall st,
  inv l0 msgs st -> inv l0 msgs (run schedule st).
Proof.
  induction schedule as [| t rest IH]; intros st Hinv; [exact Hinv |].
  apply IH. now apply inv_step.
Qed.

(** Atomic drain.  Threads append the messages [msgs] to a buffer that
    holds [l0] while one thread drains it, their steps interleaved in
    any way.  At every moment each message is in exactly one place: in
    a list of the buffer or still with its thread.  Once the threads
    are through, the list that [get_list] returned and the current
    batch hold, between them, every message exactly once. *)
Lemma atomic_drain_interleaved (l0 msgs : list A) (schedule : list turn) :
  let st := run schedule (start l0 msgs) in
  Permutation (concat (objects (st_heap st)) ++ all_in_flight (st_appenders st))
              (l0 ++ msgs) /\
  (forall r,
      st_drainer st = Drained r ->
      all_in_flight (st_appenders st) = [] ->
      Permutation (deref (st_heap st) r ++ current (st_heap st)) (l0 ++ msgs)).
Proof.
  cbn zeta.
  destruct (inv_run l0 msgs schedule _ (inv_start l0 msgs))
    as (Hperm & _ & Hshape).
  split; [exact Hperm |].
  intros r Hd Hdone. rewrite Hd in Hshape. rewrite Hdone, app_nil_r in Hperm.
  destruct Hshape as (-> & Hl & Hout).
  unfold current, deref. rewrite Hout.
  destruct (objects (st_heap (run schedule (start l0 msgs))))
    as [| a [| b [| c rest]]]; try discriminate.
  cbn in *. now rewrite app_nil_r in Hperm.
Qed.

End RacingFacts.

(** A thread loads the batch, the drain runs whole, and only then the
    thread appends: its message is in the list that was returned, not
    in the current batch. *)
Example late_append_lands_in_drained :
  let st := Racing.run
              [Racing.Appender 0; Racing.Drainer; Racing.Drainer;
               Racing.Appender 0; Racing.Appender 1; Racing.Appender 1]%nat
              (Racing.start [] [1; 2]%nat) in
  Racing.st_drainer st = Racing.Drained 0 /\
  Racing.all_in_flight (Racing.st_appenders st) = [] /\
  Racing.deref (Racing.st_heap st) 0 = [1]%nat /\
  Racing.current (Racing.st_heap st) = [2]%nat.
Proof. cbn. repeat split. Qed.

(** C1.  From any buffer the methods can build, after the messages [ms1]
    are appended one by one, [get_list] succeeds and returns what was
    pending followed by [ms1], in that order, and leaves the buffer of
    a new, empty batch, of length 0; messages [ms2] appended afterwards
    go to the new batch only, so that every message occurs as often in
    the drained batch and the buffer taken together as it was appended:
    it is in exactly one of the two.  The same holds when the appends
    of [ms1] run in threads of their own while another thread drains,
    the steps of all of them interleaved in any way: once they are
    through, the list [get_list] returned and the current batch hold
    between them every message exactly once. *)
Theorem C1_get_list_drains_exactly
    (A : Type) (dec : forall x y : A, {x = y} + {x <> y})
    (b : MessageBuffer.t A) (ms1 ms2 : list A) :
  MessageBuffer.reachable b ->
  exists b1 b2 b3,
    MessageBuffer.append_all ms1 b = Ok b1 /\
    MessageBuffer.get_list b1 = Ok (MessageBuffer.pending b ++ ms1, b2) /\
    b2 = MessageBuffer.init /\
    MessageBuffer.len b2 = Ok 0%Z /\
    MessageBuffer.append_all ms2 b2 = Ok b3 /\
    MessageBuffer.pending b3 = ms2 /\
    (forall m,
        (count_occ dec (MessageBuffer.pending b ++ ms1) m
         + count_occ dec (MessageBuffer.pending b3) m
         = count_occ dec (MessageBuffer.pending b ++ ms1 ++ ms2) m)%nat) /\
    (forall schedule r,
        let st := Racing.run schedule
                    (Racing.start (MessageBuffer.pending b) ms1) in
        Racing.st_drainer st = Racing.Drained r ->
        Racing.all_in_flight (Racing.st_appenders st) = [] ->
        Permutation
          (Racing.deref (Racing.st_heap st) r ++ Racing.current (Racing.st_heap st))
          (MessageBuffer.pending b ++ ms1)).
Proof.
  intros Hreach.
  destruct (reachable_single _ _ Hreach) as [l ->].
  exists [l ++ ms1], [[]], [ms2].
  cbn [MessageBuffer.pending].
  split; [apply append_all_single |].
  split; [reflexivity |]. split; [reflexivity |]. split; [reflexivity |].
  split; [apply (append_all_single _ ms2 []) |].
  split; [reflexivity |]. split.
  - intros m. rewrite (app_assoc l ms1 ms2).
    symmetry. apply count_occ_app.
  - intros schedule r. apply (atomic_drain_interleaved A l ms1 schedule).
Qed.

Lemma C1_get_list_drains_exactly_witness :
  exists b1 b2 b3,
    MessageBuffer.append_all [1; 2]%nat MessageBuffer.init = Ok b1 /\
    MessageBuffer.get_list b1 = Ok ([1; 2]%nat, b2) /\
    MessageBuffer.append_all [3]%nat b2 = Ok b3 /\
    MessageBuffer.pending b3 = [3]%nat.
Proof.
  destruct (@C1_get_list_drains_exactly nat Nat.eq_dec MessageBuffer.init
              [1; 2]%nat [3]%nat (MessageBuffer.reach_init nat))
    as (b1 & b2 & b3 & H1 & H2 & _ & _ & H5 & H6 & _).
  exists b1, b2, b3. repeat split; assumption.
Defined.

(** ** Properties of a single producer *)

Section ProducerFacts.
Variable env : Env.
Implicit Types (p : TracktorProducer.t) (s : Shared).

Import TracktorProducer.













End ProducerFacts.





(** ** Fan-out *)

Section FanOut.
Variable env : Env.

Import TracktorProducer.








End FanOut.

(** ** Construction of the registry *)

Section Construction.
Variable env : Env.

Import MultiProducer.

Lemma pyset_NoDup l : NoDup (pyset l).
Proof. apply NoDup_nodup. Qed.

Lemma pyset_In n l : In n (pyset l) <-> In n l.
Proof. apply nodup_In. Qed.

Lemma pyset_fixed l : NoDup l -> pyset l = l.
Proof. apply nodup_fixed_point. Qed.

(** The table [get_uri_to_producer] builds, before the default entry
    is added. *)
Lemma uri_fold_get (section : Dict.t string) : forall acc k,
  Dict.wf section ->
  Dict.get k (fold_left uri_entries section acc) =
  match Dict.get k section with
  | Some v =>
      if String.eqb v EmptyString then Dict.get k acc
      else Some (pyset (PyStr.split PyStr.comma v))
  | None => Dict.get k acc
  end.
Proof.
  induction section as [| [k0 v0] rest IH]; intros acc k Hwf; [reflexivity |].
  inversion Hwf as [| ? ? Hnot Hwf']; subst.
  cbn [fold_left Dict.get]. rewrite (IH _ k Hwf').
  destruct (String.eqb k0 k) eqn:E.
  - apply String.eqb_eq in E. subst k0.
    rewrite (not_In_get_None _ k rest Hnot).
    unfold uri_entries. destruct (String.eqb v0 EmptyString); [reflexivity |].
    apply get_set_same.
  - apply String.eqb_neq in E.
    assert (Hacc : Dict.get k (uri_entries acc (k0, v0)) = Dict.get k acc).
    { unfold uri_entries. destruct (String.eqb v0 EmptyString); [reflexivity |].
      now apply get_set_other. }
    now rewrite Hacc.
Qed.

Lemma uri_fold_wf (section : Dict.t string) : forall acc,
  Dict.wf acc -> Dict.wf (fold_left uri_entries section acc).
Proof.
  induction section as [| [k0 v0] rest IH]; intros acc Hwf; [exact Hwf |].
  cbn [fold_left]. apply IH. unfold uri_entries.
  destruct (String.eqb v0 EmptyString); [exact Hwf | now apply wf_set].
Qed.

Lemma uri_fold_NoDup (section : Dict.t string) : forall acc,
  (forall k l, In (k, l) acc -> NoDup l) ->
  forall k l, In (k, l) (fold_left uri_entries section acc) -> NoDup l.
Proof.
  induction section as [| [k0 v0] rest IH]; intros acc Hacc; [exact Hacc |].
  cbn [fold_left]. apply IH. unfold uri_entries.
  destruct (String.eqb v0 EmptyString); [exact Hacc |].
  intros k l Hin.
  destruct (dict_set_In _ _ _ _ _ _ Hin) as [[_ ->] | H];
    [apply pyset_NoDup | eapply Hacc, H].
Qed.

(** What [get_uri_to_producer] returns, in terms of the section. *)
Lemma get_uri_to_producer_spec configs section_name table :
  get_uri_to_producer configs section_name = Ok table ->
  exists section,
    Dict.get section_name configs = Some section /\
    Dict.wf table /\
    (forall k l, In (k, l) table -> NoDup l) /\
    (exists d, Dict.get "default" table = Some d) /\
    (Dict.wf section ->
     forall k, Dict.get k table =
       match Dict.get k section with
       | Some v =>
           if String.eqb v EmptyString
           then (if String.eqb k "default" then Some [] else None)
           else Some (pyset (PyStr.split PyStr.comma v))
       | None => if String.eqb k "default" then Some [] else None
       end).
Proof.
  unfold get_uri_to_producer, Dict.index.
  destruct (Dict.get section_name configs) as [section |]; [| discriminate].
  cbn [bind]. set (table0 := fold_left uri_entries section Dict.empty).
  assert (Hwf0 : Dict.wf table0) by (apply uri_fold_wf; constructor).
  assert (Hnd0 : forall k l, In (k, l) table0 -> NoDup l).
  { apply uri_fold_NoDup. intros k l []. }
  assert (Hget0 : Dict.wf section -> forall k, Dict.get k table0 =
            match Dict.get k section with
            | Some v => if String.eqb v EmptyString then None
                        else Some (pyset (PyStr.split PyStr.comma v))
            | None => None
            end).
  { intros Hwf k. unfold table0. now rewrite uri_fold_get. }
  destruct (Dict.len table0 =? 0)%Z; [discriminate |].
  unfold Dict.mem. destruct (Dict.get "default" table0) as [d |] eqn:Hd.
  - intros [= <-]. exists section. repeat split; try assumption; [eauto |].
    intros Hwf k. rewrite (Hget0 Hwf k).
    destruct (String.eqb k "default") eqn:E.
    + apply String.eqb_eq in E. subst k.
      rewrite (Hget0 Hwf) in Hd.
      destruct (Dict.get "default" section) as [v |]; [| discriminate].
      destruct (String.eqb v EmptyString); [discriminate | reflexivity].
    + reflexivity.
  - intros [= <-]. exists section. repeat split.
    + now apply wf_set.
    + intros k l Hin.
      destruct (dict_set_In _ _ _ _ _ _ Hin) as [[_ ->] | H];
        [constructor | eapply Hnd0, H].
    + exists []. apply get_set_same.
    + intros Hwf k. rewrite get_set.
      destruct (String.eqb "default" k) eqn:E.
      * apply String.eqb_eq in E. subst k. rewrite (Hget0 Hwf) in Hd.
        cbn [String.eqb Ascii.eqb Bool.eqb].
        destruct (Dict.get "default" section) as [v |]; [| reflexivity].
        now destruct (String.eqb v EmptyString).
      * rewrite String.eqb_sym, E. apply (Hget0 Hwf).
Qed.

Lemma eventhub_fold_wf prefix (configs : Config) : forall acc,
  Dict.wf acc -> Dict.wf (fold_left (eventhub_sections prefix) configs acc).
Proof.
  induction configs as [| [section conf] rest IH]; intros acc Hwf; [exact Hwf |].
  cbn [fold_left]. apply IH. unfold eventhub_sections.
  destruct (PyStr.startswith section prefix); [now apply wf_set | exact Hwf].
Qed.

(** The first loop of [create_producers] builds one producer for each
    name that is not yet known, and reads the clock once for each. *)
Lemma build_producers_spec tps bs wae (items : Dict.t (Dict.t string)) :
  forall named s named' s',
  build_producers env items tps bs wae named s = Ok (named', s') ->
  Dict.wf items ->
  (forall n, In n (Dict.keys items) -> ~ In n (Dict.keys named)) ->
  Dict.keys named' = Dict.keys named ++ Dict.keys items /\
  ticks s' = (length items + ticks s)%nat /\
  __thread_pool s' = __thread_pool s /\
  send_calls s' = send_calls s /\
  (forall n p, Dict.get n named' = Some p ->
     Dict.get n named = Some p \/
     (In n (Dict.keys items) /\ TracktorProducer.name p = n /\
      TracktorProducer.__message_buffer p = MessageBuffer.init /\
      TracktorProducer.buffer_size p = bs)).
Proof.
  induction items as [| [n conf] rest IH]; intros named s named' s' Hb Hwf Hnew.
  - cbn in Hb. injection Hb as <- <-. cbn. rewrite app_nil_r.
    repeat split. intros n p H. now left.
  - inversion Hwf as [| ? ? Hnot Hwf']; subst.
    cbn [build_producers] in Hb.
    assert (Hmem : Dict.mem n named = false).
    { apply mem_false_In. apply Hnew. now left. }
    rewrite Hmem in Hb.
    destruct (client_of env conf) as [c |]; [| discriminate].
    cbn [bind TracktorProducer.init] in Hb.
    apply IH in Hb; [| exact Hwf' |].
    + destruct Hb as (Hk & Ht & Hp & Hs & Hget).
      rewrite keys_set, Hmem in Hk. rewrite <- app_assoc in Hk.
      split; [exact Hk |]. split; [cbn in *; lia |].
      split; [exact Hp |]. split; [exact Hs |].
      intros m p Hm. destruct (Hget m p Hm) as [H | (Hin & Hrest)].
      * rewrite get_set in H. destruct (String.eqb n m) eqn:E.
        -- apply String.eqb_eq in E. subst m. injection H as <-.
           right. cbn. repeat split. now left.
        -- now left.
      * right. split; [now right | exact Hrest].
    + intros m Hm. rewrite keys_set, Hmem. intros Hin.
      apply in_app_or in Hin. destruct Hin as [Hin | [<- | []]].
      * apply (Hnew m); [now right | exact Hin].
      * contradiction.
Qed.

Lemma lookup_all_spec named l : forall ps,
  (forall n p, Dict.get n named = Some p -> TracktorProducer.name p = n) ->
  lookup_all named l = Ok ps ->
  map TracktorProducer.name ps = l /\
  forall n, In n l -> Dict.mem n named = true.
Proof.
  intros ps Hname. revert ps.
  induction l as [| n l IH]; intros ps Hl; cbn in Hl.
  - injection Hl as <-. split; [reflexivity | intros n []].
  - unfold Dict.index in Hl.
    destruct (Dict.get n named) as [p |] eqn:Hp; [| discriminate].
    cbn [bind] in Hl.
    destruct (lookup_all named l) as [qs |]; [| discriminate].
    cbn in Hl. injection Hl as <-.
    destruct (IH qs eq_refl) as [Hmap Hmem]. cbn.
    rewrite Hmap, (Hname n p Hp). split; [reflexivity |].
    intros m [<- | Hm]; [apply (get_Some_mem _ _ _ _ Hp) | now apply Hmem].
Qed.

Lemma producer_set_spec named l ps :
  (forall n p, Dict.get n named = Some p -> TracktorProducer.name p = n) ->
  producer_set named l = Ok ps ->
  ps = pyset l /\ forall n, In n l -> Dict.mem n named = true.
Proof.
  intros Hname. unfold producer_set.
  destruct (lookup_all named l) as [qs |] eqn:Hq; [| discriminate].
  cbn. intros [= <-].
  destruct (lookup_all_spec named l qs Hname Hq) as [-> Hmem]. now split.
Qed.

(** The second loop of [create_producers] copies the table, and finds
    every name in it. *)
Lemma assign_producers_spec named (items : Dict.t (list string)) :
  forall acc table,
  (forall n p, Dict.get n named = Some p -> TracktorProducer.name p = n) ->
  assign_producers items named acc = Ok table ->
  Dict.wf items ->
  (forall k, Dict.get k table =
     match Dict.get k items with
     | Some l => Some (pyset l)
     | None => Dict.get k acc
     end) /\
  (forall sw l n, In (sw, l) items -> In n l -> Dict.mem n named = true).
Proof.
  induction items as [| [k0 l0] rest IH]; intros acc table Hname Ha Hwf.
  - cbn in Ha. injection Ha as <-. split; [reflexivity | intros ? ? ? []].
  - inversion Hwf as [| ? ? Hnot Hwf']; subst.
    cbn [assign_producers] in Ha.
    destruct (producer_set named l0) as [ps |] eqn:Hps; [| discriminate].
    cbn [bind] in Ha.
    destruct (producer_set_spec named l0 ps Hname Hps) as [-> Hmem].
    destruct (IH _ table Hname Ha Hwf') as [Hget Hin].
    split.
    + intros k. rewrite Hget. cbn [Dict.get].
      destruct (String.eqb k0 k) eqn:E.
      * apply String.eqb_eq in E. subst k0.
        rewrite (not_In_get_None _ k rest Hnot). apply get_set_same.
      * apply String.eqb_neq in E.
        destruct (Dict.get k rest); [reflexivity | now apply get_set_other].
    + intros sw l n [[= <- <-] | H] Hn; [now apply Hmem | eapply Hin; eauto].
Qed.

Lemma get_eventhub_config_spec configs prefix producer_config :
  get_eventhub_config configs prefix = Ok producer_config ->
  producer_config = fold_left (eventhub_sections prefix) configs Dict.empty /\
  Dict.wf producer_config /\ producer_config <> [].
Proof.
  unfold get_eventhub_config.
  set (d := fold_left _ configs Dict.empty).
  assert (Hwf : Dict.wf d) by (apply eventhub_fold_wf; constructor).
  destruct d as [| x d']; cbn; [discriminate |].
  intros [= <-]. repeat split; [exact Hwf | discriminate].
Qed.

Lemma init_inv config param usection prefix tps bs wae s r s' :
  init env config param usection prefix tps bs wae s = Ok (r, s') ->
  exists producer_config switch_to_producer,
    get_eventhub_config config prefix = Ok producer_config /\
    get_uri_to_producer config usection = Ok switch_to_producer /\
    build_producers env producer_config tps bs wae Dict.empty s
      = Ok (__named_producers r, s') /\
    assign_producers switch_to_producer (__named_producers r) Dict.empty
      = Ok (__producers r) /\
    __uri_stream_parameter r = param.
Proof.
  unfold init, create_producers. cbn [__named_producers __producers
                                      __uri_stream_parameter].
  destruct (get_eventhub_config config prefix) as [pc |]; [| discriminate].
  destruct (get_uri_to_producer config usection) as [sp |]; [| discriminate].
  cbn [bind].
  destruct (build_producers env pc tps bs wae Dict.empty s)
    as [[named s1] |] eqn:Hbuild; [| discriminate].
  cbn [bind].
  destruct (assign_producers sp named Dict.empty) as [table |] eqn:Hassign;
    [| discriminate].
  cbn [bind]. intros [= <- <-]. exists pc, sp. cbn.
  repeat split; assumption.
Qed.

(** The producers a successful construction leaves: one for each
    destination name, each with an empty buffer. *)
Lemma init_named config param usection prefix tps bs wae s r s' :
  init env config param usection prefix tps bs wae s = Ok (r, s') ->
  Dict.keys (__named_producers r) =
    Dict.keys (fold_left (eventhub_sections prefix) config Dict.empty) /\
  Dict.wf (__named_producers r) /\
  ticks s' = (length (__named_producers r) + ticks s)%nat /\
  forall n p, Dict.get n (__named_producers r) = Some p ->
    TracktorProducer.name p = n /\
    TracktorProducer.__message_buffer p = MessageBuffer.init /\
    TracktorProducer.buffer_size p = bs.
Proof.
  intros Hinit.
  destruct (init_inv _ _ _ _ _ _ _ _ _ _ Hinit)
    as (pc & sp & Hpc & _ & Hbuild & _ & _).
  destruct (get_eventhub_config_spec _ _ _ Hpc) as (Epc & Hwf & _).
  destruct (build_producers_spec _ _ _ _ _ _ _ _ Hbuild Hwf)
    as (Hk & Ht & _ & _ & Hget).
  { intros n _ []. }
  cbn [Dict.keys map app] in Hk. fold (Dict.keys pc) in Hk.
  split; [now rewrite <- Epc |].
  split; [unfold Dict.wf; rewrite Hk; exact Hwf |].
  split.
  - rewrite Ht. f_equal.
    rewrite <- (length_map fst pc), <- (length_map fst (__named_producers r)).
    unfold Dict.keys in Hk. now rewrite Hk.
  - intros n p Hn. destruct (Hget n p Hn) as [H | (_ & H)]; [discriminate | exact H].
Qed.

Lemma init_registry_ok config param usection prefix tps bs wae s r s' :
  init env config param usection prefix tps bs wae s = Ok (r, s') ->
  registry_ok r.
Proof.
  intros Hinit.
  destruct (init_named _ _ _ _ _ _ _ _ _ _ Hinit) as (_ & Hwf & _ & Hp).
  destruct (init_inv _ _ _ _ _ _ _ _ _ _ Hinit)
    as (pc & sp & _ & Hsp & _ & Hassign & _).
  destruct (get_uri_to_producer_spec _ _ _ Hsp)
    as (section & _ & Hwfsp & _ & [d Hd] & _).
  destruct (assign_producers_spec _ _ _ _ (fun n p H => proj1 (Hp n p H))
              Hassign Hwfsp) as [Hget Hmem].
  repeat split.
  - exact Hwf.
  - intros n p Hn. destruct (Hp n p Hn) as (_ & Hb & _).
    unfold TracktorProducer.wf. rewrite Hb. constructor.
  - exists (pyset d). now rewrite Hget, Hd.
  - rewrite Hget in H.
    destruct (Dict.get sw sp); [| discriminate].
    injection H as <-. apply pyset_NoDup.
  - intros n Hn. rewrite Hget in H.
    destruct (Dict.get sw sp) as [l |] eqn:Hl; [| discriminate].
    injection H as <-. apply (proj1 (pyset_In _ _)) in Hn.
    eapply Hmem; [apply (get_In _ _ _ _ Hl) | exact Hn].
Qed.

End Construction.

Lemma scenario_built :
  Scenario.build Scenario.env_ok Scenario.config = Ok (Scenario.r0, Scenario.s1).
Proof. vm_compute. reflexivity. Qed.


(** C4.  After a successful construction the routing table has a
    "default" entry; [producers] is a function of the request and the
    table alone, which returns the set the table maps the selector
    value to, and the default set when the request has no selector
    value or the table has no entry for it; the table maps a selector
    value to the set of the names the configuration lists for it, every
    one the name of a producer built, has no entry for a selector value
    other than "default" that the configuration leaves out or maps to
    the empty string, and its default set is empty when the
    configuration gives none. *)
Theorem C4_producers_lookup
    (env : Env) (config : MultiProducer.Config)
    (param usection prefix : string) (tps bs wae : Z) (s s' : Shared)
    (r : MultiProducer.t) :
  MultiProducer.init env config param usection prefix tps bs wae s = Ok (r, s') ->
  exists section default,
    Dict.get usection config = Some section /\
    Dict.get "default" (MultiProducer.__producers r) = Some default /\
    (forall req,
        MultiProducer.producers req r =
          Ok match MultiProducer.get_param req param with
             | Some v =>
                 match Dict.get v (MultiProducer.__producers r) with
                 | Some ps => ps
                 | None => default
                 end
             | None => default
             end) /\
    (forall sw ps n,
        Dict.get sw (MultiProducer.__producers r) = Some ps -> In n ps ->
        exists p, Dict.get n (MultiProducer.__named_producers r) = Some p /\
                  TracktorProducer.name p = n) /\
    (Dict.wf section ->
     (forall sw v,
         Dict.get sw section = Some v -> v <> EmptyString ->
         Dict.get sw (MultiProducer.__producers r) =
           Some (pyset (PyStr.split PyStr.comma v))) /\
     (forall sw,
         sw <> "default" ->
         Dict.get sw section = None \/ Dict.get sw section = Some EmptyString ->
         Dict.get sw (MultiProducer.__producers r) = None) /\
     (Dict.get "default" section = None \/
      Dict.get "default" section = Some EmptyString ->
      default = [])).
Proof.
  intros Hinit.
  destruct (init_named _ _ _ _ _ _ _ _ _ _ _ Hinit) as (_ & _ & _ & Hp).
  destruct (init_registry_ok _ _ _ _ _ _ _ _ _ _ _ Hinit)
    as (_ & _ & [default Hdef] & Hsets).
  destruct (init_inv _ _ _ _ _ _ _ _ _ _ _ Hinit)
    as (pc & sp & _ & Hsp & _ & Hassign & Hparam).
  destruct (get_uri_to_producer_spec _ _ _ Hsp)
    as (section & Hsec & Hwfsp & Hnd & _ & Htable).
  destruct (assign_producers_spec _ _ _ _ (fun n p H => proj1 (Hp n p H))
              Hassign Hwfsp) as [Hget _].
  assert (Hcopy : forall k, Dict.get k (MultiProducer.__producers r) = Dict.get k sp).
  { intros k. rewrite Hget. destruct (Dict.get k sp) as [l |] eqn:Hl; [| reflexivity].
    f_equal. apply pyset_fixed. eapply Hnd, get_In, Hl. }
  exists section, default.
  split; [exact Hsec |]. split; [exact Hdef |]. split; [| split].
  - intros req. unfold MultiProducer.producers, Dict.index.
    rewrite Hdef, Hparam. reflexivity.
  - intros sw ps n Hsw Hn. destruct (Hsets sw ps Hsw) as [_ Hmem].
    destruct (mem_get _ _ _ (Hmem n Hn)) as [p Hpn].
    exists p. split; [exact Hpn | apply (Hp n p Hpn)].
  - intros Hwf. repeat split.
    + intros sw v Hv Hne. rewrite Hcopy, (Htable Hwf), Hv.
      apply String.eqb_neq in Hne. now rewrite Hne.
    + intros sw Hsw Hv. rewrite Hcopy, (Htable Hwf).
      apply String.eqb_neq in Hsw.
      destruct Hv as [-> | ->]; cbn; now rewrite Hsw.
    + intros Hv. rewrite Hcopy, (Htable Hwf) in Hdef.
      destruct Hv as [Hv | Hv]; rewrite Hv in Hdef; cbn in Hdef; congruence.
Qed.

Lemma C4_producers_lookup_witness :
  MultiProducer.producers (Scenario.req "x") Scenario.r0 = Ok ["p1"; "p2"] /\
  MultiProducer.producers (Scenario.req "unknown") Scenario.r0 = Ok [] /\
  MultiProducer.producers [] Scenario.r0 = Ok [].
Proof.
  destruct (C4_producers_lookup _ _ _ _ _ _ _ _ _ _ _ scenario_built)
    as (section & default & Hsec & Hdef & Hlookup & _).
  rewrite !Hlookup.
  vm_compute in Hdef. injection Hdef as <-.
  repeat split.
Defined.

(** ** Constructions that fail *)

Section Failures.
Variable env : Env.

Import MultiProducer.

Lemma In_keys_set (V : Type) (d : Dict.t V) k v n :
  In n (Dict.keys (Dict.set k v d)) <-> In n (Dict.keys d) \/ n = k.
Proof.
  rewrite keys_set. destruct (Dict.mem k d) eqn:E.
  - apply mem_In in E. split; [tauto | intros [H | ->]; assumption].
  - rewrite in_app_iff. cbn. intuition congruence.
Qed.

Lemma eventhub_fold_keys prefix (configs : Config) : forall acc n,
  In n (Dict.keys (fold_left (eventhub_sections prefix) configs acc)) <->
  In n (Dict.keys acc) \/
  exists section conf,
    In (section, conf) configs /\ PyStr.startswith section prefix = true /\
    PyStr.remove_all section prefix = n.
Proof.
  induction configs as [| [section conf] rest IH]; intros acc n.
  - cbn. split; [tauto | intros [H | (? & ? & [] & _)]; exact H].
  - cbn [fold_left]. rewrite IH. unfold eventhub_sections.
    destruct (PyStr.startswith section prefix) eqn:E.
    + rewrite In_keys_set. split.
      * intros [[H | ->] | (sec & c & Hin & Hs & Hn)].
        -- now left.
        -- right. exists section, conf. repeat split; [now left | exact E].
        -- right. exists sec, c. repeat split; [now right | exact Hs | exact Hn].
      * intros [H | (sec & c & [[= <- <-] | Hin] & Hs & Hn)].
        -- left. now left.
        -- left. right. now symmetry.
        -- right. exists sec, c. now repeat split.
    + split.
      * intros [H | (sec & c & Hin & Hs & Hn)]; [now left |].
        right. exists sec, c. repeat split; [now right | exact Hs | exact Hn].
      * intros [H | (sec & c & [[= <- <-] | Hin] & Hs & Hn)]; [now left | congruence |].
        right. exists sec, c. now repeat split.
Qed.

Lemma destinations_keys configs prefix n :
  In n (Dict.keys (destinations configs prefix)) <->
  exists section conf,
    In (section, conf) configs /\ PyStr.startswith section prefix = true /\
    PyStr.remove_all section prefix = n.
Proof.
  unfold destinations. rewrite eventhub_fold_keys. cbn. tauto.
Qed.

Lemma uri_fold_keys (section : Dict.t string) : forall acc k,
  In k (Dict.keys (fold_left uri_entries section acc)) <->
  In k (Dict.keys acc) \/ exists v, In (k, v) section /\ v <> EmptyString.
Proof.
  induction section as [| [k0 v0] rest IH]; intros acc k.
  - cbn. split; [tauto | intros [H | (? & [] & _)]; exact H].
  - cbn [fold_left]. rewrite IH. unfold uri_entries.
    destruct (String.eqb_spec v0 EmptyString) as [-> | Hne].
    + split.
      * intros [H | (v & Hin & Hv)]; [now left |].
        right. exists v. split; [now right | exact Hv].
      * intros [H | (v & [[= <- <-] | Hin] & Hv)]; [now left | congruence |].
        right. exists v. now split.
    + rewrite In_keys_set. split.
      * intros [[H | ->] | (v & Hin & Hv)].
        -- now left.
        -- right. exists v0. split; [now left | exact Hne].
        -- right. exists v. split; [now right | exact Hv].
      * intros [H | (v & [[= <- <-] | Hin] & Hv)].
        -- left. now left.
        -- left. now right.
        -- right. exists v. now split.
Qed.

Lemma keys_nil (V : Type) (d : Dict.t V) :
  (Dict.len d =? 0)%Z = true <-> forall n, ~ In n (Dict.keys d).
Proof.
  destruct d as [| [k v] d].
  - cbn. split; [intros _ n [] | reflexivity].
  - split.
    + unfold Dict.len. cbn [length]. rewrite Nat2Z.inj_succ.
      intros H. apply Z.eqb_eq in H. lia.
    + intros H. exfalso. apply (H k). now left.
Qed.

(** [get_eventhub_config] raises exactly when no section name starts
    with the prefix. *)
Lemma get_eventhub_config_raises configs prefix :
  raises (get_eventhub_config configs prefix) = true <->
  no_destination_sections configs prefix.
Proof.
  unfold get_eventhub_config. fold (destinations configs prefix).
  destruct (Dict.len (destinations configs prefix) =? 0)%Z eqn:E; cbn.
  - split; [intros _ | reflexivity].
    intros section conf Hin.
    destruct (PyStr.startswith section prefix) eqn:Hs; [| reflexivity].
    exfalso. apply (proj1 (keys_nil _ _) E (PyStr.remove_all section prefix)).
    apply destinations_keys. exists section, conf. now repeat split.
  - split; [discriminate |]. intros Hnone.
    assert (Hnil : (Dict.len (destinations configs prefix) =? 0)%Z = true);
      [| congruence].
    apply keys_nil. intros n Hn. apply destinations_keys in Hn.
    destruct Hn as (section & conf & Hin & Hs & _).
    rewrite (Hnone section conf Hin) in Hs. discriminate.
Qed.

(** [get_uri_to_producer] raises exactly when the routing section is
    missing or names no producer. *)
Lemma get_uri_to_producer_raises configs usection :
  raises (get_uri_to_producer configs usection) = true <->
  no_mapping configs usection.
Proof.
  unfold get_uri_to_producer, no_mapping, Dict.index.
  destruct (Dict.get usection configs) as [section |]; cbn; [| tauto].
  destruct (Dict.len (fold_left uri_entries section Dict.empty) =? 0)%Z eqn:E; cbn.
  - split; [intros _ | reflexivity].
    intros sw v Hin.
    destruct (String.eqb_spec v EmptyString) as [-> | Hne]; [reflexivity |].
    exfalso. apply (proj1 (keys_nil _ _) E sw).
    apply uri_fold_keys. right. now exists v.
  - assert (Hsome : ~ forall sw v, In (sw, v) section -> v = EmptyString).
    { intros Hall.
      assert (Hnil : (Dict.len (fold_left uri_entries section Dict.empty) =? 0)%Z
                     = true); [| congruence].
      apply keys_nil. intros n Hn. apply uri_fold_keys in Hn.
      destruct Hn as [[] | (v & Hin & Hv)]. apply Hv. eapply Hall, Hin. }
    destruct (Dict.mem "default" _); cbn; split; try discriminate; tauto.
Qed.

(** The first loop raises exactly when some section gives no client. *)
Lemma build_producers_raises tps bs wae (items : Dict.t (Dict.t string)) :
  forall named s,
  Dict.wf items ->
  (forall n, In n (Dict.keys items) -> ~ In n (Dict.keys named)) ->
  (raises (build_producers env items tps bs wae named s) = true <->
   exists n conf, In (n, conf) items /\ raises (client_of env conf) = true).
Proof.
  induction items as [| [n conf] rest IH]; intros named s Hwf Hnew.
  - cbn. split; [discriminate | intros (? & ? & [] & _)].
  - inversion Hwf as [| ? ? Hnot Hwf']; subst.
    cbn [build_producers].
    assert (Hmem : Dict.mem n named = false).
    { apply mem_false_In. apply Hnew. now left. }
    rewrite Hmem.
    destruct (client_of env conf) as [c | e] eqn:Hc; cbn [bind TracktorProducer.init].
    + rewrite IH; [| exact Hwf' |].
      * split.
        -- intros (m & cf & Hin & Hr). exists m, cf. split; [now right | exact Hr].
        -- intros (m & cf & [[= <- <-] | Hin] & Hr).
           ++ rewrite Hc in Hr. discriminate.
           ++ exists m, cf. now split.
      * intros m Hm. rewrite In_keys_set. intros [Hin | ->].
        -- apply (Hnew m); [now right | exact Hin].
        -- contradiction.
    + cbn. split; [intros _ | reflexivity].
      exists n, conf. split; [now left | now rewrite Hc].
Qed.

Lemma lookup_all_raises named (l : list string) :
  raises (lookup_all named l) = true <->
  exists n, In n l /\ Dict.mem n named = false.
Proof.
  induction l as [| n l IH]; cbn [lookup_all].
  - cbn. split; [discriminate | intros (? & [] & _)].
  - unfold Dict.index, Dict.mem in *.
    destruct (Dict.get n named) as [p |] eqn:Hp; cbn [bind].
    + destruct (lookup_all named l) as [ps |]; cbn in *.
      * split; [discriminate |].
        intros (m & [<- | Hm] & Hnone).
        -- rewrite Hp in Hnone. discriminate.
        -- apply IH. now exists m.
      * split; [intros _ | reflexivity].
        destruct (proj1 IH eq_refl) as (m & Hm & Hnone).
        exists m. split; [now right | exact Hnone].
    + cbn. split; [intros _ | reflexivity].
      exists n. split; [now left | now rewrite Hp].
Qed.

(** The second loop raises exactly when some set lists a name that no
    producer has. *)
Lemma assign_producers_raises named (items : Dict.t (list string)) : forall acc,
  raises (assign_producers items named acc) = true <->
  exists sw l n, In (sw, l) items /\ In n l /\ Dict.mem n named = false.
Proof.
  induction items as [| [sw0 l0] rest IH]; intros acc; cbn [assign_producers].
  - cbn. split; [discriminate | intros (? & ? & ? & [] & _)].
  - unfold producer_set.
    destruct (lookup_all named l0) as [ps |] eqn:Hl; cbn [bind].
    + rewrite IH. split.
      * intros (sw & l & n & Hin & Hr). exists sw, l, n. split; [now right | exact Hr].
      * intros (sw & l & n & [[= <- <-] | Hin] & Hn & Hnone).
        -- assert (Hr : raises (lookup_all named l0) = true)
             by (apply lookup_all_raises; now exists n).
           rewrite Hl in Hr. discriminate.
        -- exists sw, l, n. now repeat split.
    + cbn. split; [intros _ | reflexivity].
      assert (Hr : raises (lookup_all named l0) = true) by now rewrite Hl.
      apply lookup_all_raises in Hr. destruct Hr as (n & Hn & Hnone).
      exists sw0, l0, n. repeat split; [now left | exact Hn | exact Hnone].
Qed.

End Failures.

Lemma unusable_iff_build_raises (env : Env) config prefix pc tps bs wae s :
  MultiProducer.get_eventhub_config config prefix = Ok pc ->
  (raises (MultiProducer.build_producers env pc tps bs wae Dict.empty s) = true <->
   unusable_destination env config prefix).
Proof.
  intros Hpc.
  destruct (get_eventhub_config_spec _ _ _ Hpc) as (Epc & Hwf & _).
  rewrite build_producers_raises; [| exact Hwf | intros n _ []].
  unfold unusable_destination. fold (destinations config prefix) in Epc.
  rewrite <- Epc. split.
  - intros (n & conf & Hin & Hr). exists n, conf.
    split; [now apply In_get | exact Hr].
  - intros (n & conf & Hget & Hr). exists n, conf.
    split; [now apply get_In | exact Hr].
Qed.

Lemma undefined_iff_assign_raises (env : Env) config usection prefix
    pc sp tps bs wae s named s1 :
  (forall section, Dict.get usection config = Some section -> Dict.wf section) ->
  MultiProducer.get_eventhub_config config prefix = Ok pc ->
  MultiProducer.get_uri_to_producer config usection = Ok sp ->
  MultiProducer.build_producers env pc tps bs wae Dict.empty s = Ok (named, s1) ->
  (raises (MultiProducer.assign_producers sp named Dict.empty) = true <->
   undefined_destination config usection prefix).
Proof.
  intros Hwfsec Hpc Hsp Hbuild.
  destruct (get_eventhub_config_spec _ _ _ Hpc) as (Epc & Hwfpc & _).
  fold (destinations config prefix) in Epc.
  destruct (build_producers_spec _ _ _ _ _ _ _ _ _ Hbuild Hwfpc) as (Hkeys & _).
  { intros n _ []. }
  change (Dict.keys named = Dict.keys pc) in Hkeys.
  destruct (get_uri_to_producer_spec _ _ _ Hsp)
    as (section & Hsec & Hwfsp & _ & _ & Htable).
  specialize (Htable (Hwfsec section Hsec)).
  assert (Hmissing : forall n,
            Dict.mem n named = false <->
            forall sec conf, In (sec, conf) config ->
              PyStr.startswith sec prefix = true ->
              PyStr.remove_all sec prefix <> n).
  { intros n. rewrite mem_false_In, Hkeys, Epc, destinations_keys. split.
    - intros Hno sec conf Hin Hs Hn. apply Hno. now exists sec, conf.
    - intros Hno (sec & conf & Hin & Hs & Hn). exact (Hno sec conf Hin Hs Hn). }
  rewrite assign_producers_raises. unfold undefined_destination. split.
  - intros (sw & l & n & Hin & Hn & Hmem).
    apply (In_get _ _ _ _ Hwfsp) in Hin. rewrite Htable in Hin.
    destruct (Dict.get sw section) as [v |] eqn:Hv.
    + destruct (String.eqb_spec v EmptyString) as [-> | Hne].
      * destruct (String.eqb sw "default"); [| discriminate].
        injection Hin as <-. contradiction.
      * injection Hin as <-. apply (proj1 (pyset_In _ _)) in Hn.
        exists section, sw, v, n.
        repeat split; [exact Hsec | now apply get_In | exact Hne | exact Hn |].
        now apply Hmissing.
    + destruct (String.eqb sw "default"); [| discriminate].
      injection Hin as <-. contradiction.
  - intros (section' & sw & v & n & Hsec' & Hin & Hne & Hn & Hno).
    rewrite Hsec in Hsec'. injection Hsec' as <-.
    apply (In_get _ _ _ _ (Hwfsec section Hsec)) in Hin.
    exists sw, (pyset (PyStr.split PyStr.comma v)), n.
    split; [| split].
    + apply get_In. rewrite Htable, Hin.
      apply String.eqb_neq in Hne. now rewrite Hne.
    + now apply pyset_In.
    + now apply Hmissing.
Qed.

(** C5, as the code has it.  For a configuration whose routing section,
    if present, is a dict, [__init__] raises exactly when no section
    name starts with the prefix, or the routing section is missing or
    maps no selector to a name, or some selector lists a name that no
    destination section has, or some destination section gives no
    client (it lacks connection_str or eventhub_name, or its connection
    string is refused).  When [__init__] returns, the producers are
    those of the destination names, each name once, each built once:
    the clock was read once for each. *)
Theorem C5_construction_failures
    (env : Env) (config : MultiProducer.Config)
    (param usection prefix : string) (tps bs wae : Z) (s : Shared) :
  (forall section, Dict.get usection config = Some section -> Dict.wf section) ->
  (raises (MultiProducer.init env config param usection prefix tps bs wae s) = true
   <->
   no_destination_sections config prefix \/
   no_mapping config usection \/
   undefined_destination config usection prefix \/
   unusable_destination env config prefix) /\
  (forall r s',
      MultiProducer.init env config param usection prefix tps bs wae s = Ok (r, s') ->
      Dict.keys (MultiProducer.__named_producers r) =
        Dict.keys (destinations config prefix) /\
      NoDup (Dict.keys (MultiProducer.__named_producers r)) /\
      ticks s' = (length (MultiProducer.__named_producers r) + ticks s)%nat /\
      forall n p, Dict.get n (MultiProducer.__named_producers r) = Some p ->
                  TracktorProducer.name p = n).
Proof.
  intros Hwfsec. split.
  - unfold MultiProducer.init, MultiProducer.create_producers.
    cbn [MultiProducer.__named_producers MultiProducer.__producers
         MultiProducer.__uri_stream_parameter].
    pose proof (get_eventhub_config_raises config prefix) as R1.
    pose proof (get_uri_to_producer_raises config usection) as R2.
    destruct (MultiProducer.get_eventhub_config config prefix) as [pc | e1] eqn:H1;
      cbn [bind raises] in *; [| tauto].
    destruct (MultiProducer.get_uri_to_producer config usection) as [sp | e2] eqn:H2;
      cbn [bind raises] in *; [| tauto].
    pose proof (unusable_iff_build_raises env config prefix pc tps bs wae s H1) as R4.
    destruct (MultiProducer.build_producers env pc tps bs wae Dict.empty s)
      as [[named s1] | e3] eqn:Hb; cbn [bind raises] in *; [| tauto].
    pose proof (undefined_iff_assign_raises env config usection prefix pc sp
                  tps bs wae s named s1 Hwfsec H1 H2 Hb) as R3.
    destruct (MultiProducer.assign_producers sp named Dict.empty) as [table | e4];
      cbn [bind raises] in *; [| tauto].
    split; [discriminate |].
    intros [C | [C | [C | C]]].
    + apply R1 in C. discriminate.
    + apply R2 in C. discriminate.
    + apply R3 in C. discriminate.
    + apply R4 in C. discriminate.
  - intros r s' Hinit.
    destruct (init_named _ _ _ _ _ _ _ _ _ _ _ Hinit) as (Hk & Hwf & Ht & Hp).
    repeat split; try assumption. intros n p Hn. apply (Hp n p Hn).
Qed.

Lemma C5_construction_failures_witness :
  raises (Scenario.build Scenario.env_ok Scenario.config) = false /\
  raises (Scenario.build Scenario.env_ok Scenario.config_no_connection) = true.
Proof.
  split; [reflexivity |].
  apply (C5_construction_failures Scenario.env_ok Scenario.config_no_connection
           "eh" "uri_to_producer" "producer_" 25 3 10000000 Scenario.s0).
  - intros section Hsec. vm_compute in Hsec. injection Hsec as <-.
    repeat constructor. intros [].
  - right. right. right. exists "p1", [("eventhub_name", "hub1")].
    split; reflexivity.
Defined.

(** C5, as stated, fails: the configuration has a destination section,
    a mapping, and no selector that lists an unknown name, and
    [__init__] raises all the same, because the section has no
    connection_str. *)
Lemma C5_missing_key_raises :
  ~ (raises (Scenario.build Scenario.env_ok Scenario.config_no_connection) = true
     <->
     no_destination_sections Scenario.config_no_connection "producer_" \/
     no_mapping Scenario.config_no_connection "uri_to_producer" \/
     undefined_destination Scenario.config_no_connection "uri_to_producer"
                           "producer_").
Proof.
  intros [Honly _].
  destruct (Honly eq_refl) as [C | [C | C]].
  - specialize (C "producer_p1" [("eventhub_name", "hub1")] (or_introl eq_refl)).
    discriminate.
  - unfold no_mapping in C. cbn in C.
    specialize (C "x" "p1" (or_introl eq_refl)). discriminate.
  - destruct C as (section & sw & v & n & Hsec & Hin & Hne & Hn & Hno).
    vm_compute in Hsec. injection Hsec as <-.
    destruct Hin as [[= <- <-] | []].
    destruct Hn as [<- | []].
    apply (Hno "producer_p1" [("eventhub_name", "hub1")]);
      [now left | reflexivity | reflexivity].
Qed.

(** ** Dispatch *)







(** ** Shutdown *)

Section Shutdown.
Variable env : Env.

Import TracktorProducer.








End Shutdown.









(** ** Timestamps *)

Section Timestamps.

Import Datetime.










End Timestamps.









(** ** The shared pool *)

(** One thread at a time: the pool is made by the first use and by no
    later one, and every producer gets the same pool. *)
Lemma thread_pool_once (p q : TracktorProducer.t) (s : Shared) :
  let (tp, s1) := TracktorProducer.thread_pool p s in
  __thread_pool s1 = Some tp /\
  pools_created s1 =
    match __thread_pool s with
    | None => S (pools_created s)
    | Some _ => pools_created s
    end /\
  TracktorProducer.thread_pool q s1 = (tp, s1).
Proof.
  unfold TracktorProducer.thread_pool.
  destruct (__thread_pool s) as [tp |] eqn:E; cbn; [now rewrite E | tauto].
Qed.

(** A thread that runs the three steps of the property alone does what
    [TracktorProducer.thread_pool] does. *)
Lemma thread_alone (p : TracktorProducer.t) (s : Shared) (l : bool) :
  Interleaving.run [0; 0; 0]%nat
    (Interleaving.mkState s l [Interleaving.mkThread p Interleaving.AtTest]) =
  Interleaving.mkState (snd (TracktorProducer.thread_pool p s)) l
    [Interleaving.mkThread p
       (Interleaving.Returned (Some (fst (TracktorProducer.thread_pool p s))))].
Proof.
  unfold TracktorProducer.thread_pool, Interleaving.run. cbn [fold_left].
  unfold Interleaving.step at 3. cbn. unfold Interleaving.step_thread. cbn.
  destruct (__thread_pool s) as [tp |] eqn:E; cbn.
  - unfold Interleaving.step. cbn. rewrite E. reflexivity.
  - reflexivity.
Qed.

(** No schedule ever takes the lock. *)
Lemma thread_lock_unused (schedule : list nat) : forall st,
  Interleaving.thread_lock (Interleaving.run schedule st) =
  Interleaving.thread_lock st.
Proof.
  induction schedule as [| i rest IH]; intros st; [reflexivity |].
  unfold Interleaving.run in *. cbn [fold_left]. rewrite IH.
  unfold Interleaving.step.
  destruct (nth_error (Interleaving.st_threads st) i) as [th |]; [| reflexivity].
  now destruct (Interleaving.step_thread th (Interleaving.st_shared st)).
Qed.

(** C10, on the code.  Two producers use the pool for the first time in
    two threads, and the second makes its test before the first has
    assigned: two pools are made, each thread returns its own, and the
    lock is free throughout. *)
Theorem C10_two_pools_created (p q : TracktorProducer.t) (s : Shared) :
  let st0 :=
    Interleaving.mkState (set_pool None s) false
      [Interleaving.mkThread p Interleaving.AtTest;
       Interleaving.mkThread q Interleaving.AtTest] in
  let st := Interleaving.run [0; 1; 0; 0; 1; 1]%nat st0 in
  pools_created (Interleaving.st_shared st) = S (S (pools_created s)) /\
  Interleaving.st_threads st =
    [Interleaving.mkThread p
       (Interleaving.Returned
          (Some (mkThreadPool (TracktorProducer.thread_pool_size p) [])));
     Interleaving.mkThread q
       (Interleaving.Returned
          (Some (mkThreadPool (TracktorProducer.thread_pool_size q) [])))] /\
  Interleaving.thread_lock st = false /\
  (forall prefix suffix, prefix ++ suffix = [0; 1; 0; 0; 1; 1]%nat ->
     Interleaving.thread_lock (Interleaving.run prefix st0) = false).
Proof.
  cbn zeta. repeat split.
  intros prefix suffix _. apply thread_lock_unused.
Qed.


(** * Further properties of the code *)

(** ** MessageBuffer: no method raises *)

(** X1.  A buffer that the methods have built holds exactly one batch,
    so none of them raises [IndexError]: [len] returns the number of
    pending messages, [append] adds its message at the end, [get_list]
    returns the pending messages and leaves none, and [clear] leaves
    none; after [clear] or [get_list] a drain returns only what was
    appended since. *)
Theorem X1_buffer_methods_never_raise (A : Type) (b : MessageBuffer.t A) :
  MessageBuffer.reachable b ->
  MessageBuffer.len b = Ok (Z.of_nat (length (MessageBuffer.pending b))) /\
  (forall m, exists b',
      MessageBuffer.append m b = Ok b' /\
      MessageBuffer.reachable b' /\
      MessageBuffer.pending b' = MessageBuffer.pending b ++ [m]) /\
  (exists b',
      MessageBuffer.get_list b = Ok (MessageBuffer.pending b, b') /\
      MessageBuffer.reachable b' /\
      MessageBuffer.pending b' = []) /\
  MessageBuffer.reachable (MessageBuffer.clear b) /\
  (forall ms, exists b1 b2,
      MessageBuffer.append_all ms (MessageBuffer.clear b) = Ok b1 /\
      MessageBuffer.get_list b1 = Ok (ms, b2)).
Proof.
  intros Hreach. destruct (reachable_single _ _ Hreach) as [l ->].
  split; [reflexivity |]. split; [| split; [| split]].
  - intros m. exists [l ++ [m]]. split; [reflexivity |].
    split; [| reflexivity].
    apply MessageBuffer.reach_append with (m := m) (b := [l]);
      [exact Hreach | reflexivity].
  - exists [[]]. split; [reflexivity |]. split; [| reflexivity].
    apply MessageBuffer.reach_get_list with (b := [l]) (l := l);
      [exact Hreach | reflexivity].
  - now apply MessageBuffer.reach_clear.
  - intros ms. exists [ms], [[]]. split; [| reflexivity].
    apply (append_all_single _ ms []).
Qed.

Lemma X1_buffer_methods_never_raise_witness :
  MessageBuffer.len (@MessageBuffer.init nat) = Ok 0%Z /\
  exists b', MessageBuffer.append 7%nat MessageBuffer.init = Ok b' /\
             MessageBuffer.pending b' = [7%nat].
Proof.
  destruct (X1_buffer_methods_never_raise nat MessageBuffer.init
              (MessageBuffer.reach_init nat)) as (Hlen & Happ & _).
  split; [exact Hlen |].
  destruct (Happ 7%nat) as (b' & Ha & _ & Hp). exists b'. now split.
Defined.

(** ** Empty batches, and the life of the pool *)






(** ** Failure isolation *)


(** ** Producers that exist already *)

(** X6.  The first loop of [create_producers] builds a producer only
    for a name that has none: when every name of the configuration has
    a producer already, the producers are returned as they are, with
    their buffers and their blocked-until, the clock is not read, and
    no client is built, so that not even a section without
    connection_str raises. *)
Theorem X6_existing_producers_are_kept
    (env : Env) (items : Dict.t (Dict.t string)) (tps bs wae : Z)
    (named : Dict.t TracktorProducer.t) (s : Shared) :
  (forall n, In n (Dict.keys items) -> Dict.mem n named = true) ->
  MultiProducer.build_producers env items tps bs wae named s = Ok (named, s).
Proof.
  induction items as [| [n conf] rest IH]; intros Hall; [reflexivity |].
  cbn [MultiProducer.build_producers].
  rewrite (Hall n (or_introl eq_refl)).
  apply IH. intros m Hm. apply Hall. now right.
Qed.

Lemma X6_existing_producers_are_kept_witness :
  MultiProducer.build_producers Scenario.env_ok
    [("p1", [("eventhub_name", "hub1")])] 25 3 10000000
    (MultiProducer.__named_producers Scenario.r_outage) Scenario.s_outage
  = Ok (MultiProducer.__named_producers Scenario.r_outage, Scenario.s_outage).
Proof.
  apply X6_existing_producers_are_kept.
  intros n [<- | []]. reflexivity.
Defined.

(** ** The producers of a new registry *)

Lemma build_producers_fresh (env : Env) tps bs wae
    (items : Dict.t (Dict.t string)) :
  forall named s named' s',
  MultiProducer.build_producers env items tps bs wae named s = Ok (named', s') ->
  Dict.wf items ->
  (forall n, In n (Dict.keys items) -> ~ In n (Dict.keys named)) ->
  __thread_pool s' = __thread_pool s /\
  pools_created s' = pools_created s /\
  send_calls s' = send_calls s /\
  log s' = log s /\
  (ticks s <= ticks s')%nat /\
  forall n p, Dict.get n named' = Some p ->
    Dict.get n named = Some p \/
    exists conf c e t,
      In (n, conf) items /\
      Dict.get "connection_str" conf = Some c /\
      Dict.get "eventhub_name" conf = Some e /\
      connection_error env c e = None /\
      (ticks s <= t < ticks s')%nat /\
      p = TracktorProducer.mk (mkClient c e) n (MultiProducer.encoding_of conf)
            bs tps wae MessageBuffer.init (now env t).
Proof.
  induction items as [| [n conf] rest IH]; intros named s named' s' Hb Hwf Hnew.
  - cbn in Hb. injection Hb as <- <-. repeat split; try lia. intros n p H. now left.
  - inversion Hwf as [| ? ? Hnot Hwf']; subst.
    cbn [MultiProducer.build_producers] in Hb.
    assert (Hmem : Dict.mem n named = false).
    { apply mem_false_In. apply Hnew. now left. }
    rewrite Hmem in Hb. unfold MultiProducer.client_of, Dict.index in Hb.
    destruct (Dict.get "connection_str" conf) as [c |] eqn:Hc; [| discriminate].
    destruct (Dict.get "eventhub_name" conf) as [e |] eqn:He; [| discriminate].
    cbn [bind] in Hb. unfold MultiProducer.from_connection_string in Hb.
    destruct (connection_error env c e) eqn:Hce; [discriminate |].
    cbn [bind TracktorProducer.init] in Hb.
    apply IH in Hb; [| exact Hwf' |].
    + destruct Hb as (Hp & Hpc & Hs & Hl & Ht & Hget). cbn in Hp, Hpc, Hs, Hl, Ht.
      repeat split; try assumption; try lia.
      intros m p Hm. destruct (Hget m p Hm) as [H | H].
      * rewrite get_set in H. destruct (String.eqb n m) eqn:E; [| now left].
        apply String.eqb_eq in E. subst m. injection H as <-.
        right. exists conf, c, e, (ticks s).
        repeat split; try assumption; try lia. now left.
      * right. destruct H as (conf' & c' & e' & t & Hin & H1 & H2 & H3 & H4 & H5).
        exists conf', c', e', t.
        repeat split; try assumption; try (cbn in H4; lia). now right.
    + intros m Hm. rewrite keys_set, Hmem. intros Hin.
      apply in_app_or in Hin. destruct Hin as [Hin | [<- | []]].
      * apply (Hnew m); [now right | exact Hin].
      * contradiction.
Qed.

(** X7.  A successful [__init__] makes no pool, sends nothing and logs
    nothing: the pool is left to its first use.  Every producer it
    leaves has the name of its destination, the client of that
    destination's connection_str and eventhub_name, its encoding or
    utf-8, the batch size, pool size and backoff given to [__init__],
    an empty buffer, and a blocked-until that is a reading of the clock
    taken during the construction. *)
Theorem X7_new_producers_are_fresh
    (env : Env) (config : MultiProducer.Config)
    (param usection prefix : string) (tps bs wae : Z) (s s' : Shared)
    (r : MultiProducer.t) :
  MultiProducer.init env config param usection prefix tps bs wae s = Ok (r, s') ->
  __thread_pool s' = __thread_pool s /\
  pools_created s' = pools_created s /\
  send_calls s' = send_calls s /\
  log s' = log s /\
  forall n p,
    Dict.get n (MultiProducer.__named_producers r) = Some p ->
    exists conf c e t,
      Dict.get n (destinations config prefix) = Some conf /\
      Dict.get "connection_str" conf = Some c /\
      Dict.get "eventhub_name" conf = Some e /\
      (ticks s <= t < ticks s')%nat /\
      p = TracktorProducer.mk (mkClient c e) n (MultiProducer.encoding_of conf)
            bs tps wae MessageBuffer.init (now env t).
Proof.
  intros Hinit.
  destruct (init_inv _ _ _ _ _ _ _ _ _ _ _ Hinit)
    as (pc & sp & Hpc & _ & Hbuild & _ & _).
  destruct (get_eventhub_config_spec _ _ _ Hpc) as (Epc & Hwf & _).
  fold (destinations config prefix) in Epc.
  destruct (build_producers_fresh _ _ _ _ _ _ _ _ _ Hbuild Hwf)
    as (Hp & Hc & Hs & Hl & _ & Hget).
  { intros n _ []. }
  repeat split; try assumption.
  intros n p Hn. destruct (Hget n p Hn) as [H | H]; [discriminate |].
  destruct H as (conf & c & e & t & Hin & H1 & H2 & _ & H4 & H5).
  exists conf, c, e, t. rewrite <- Epc.
  repeat split; try assumption; try lia. now apply In_get.
Qed.

Lemma X7_new_producers_are_fresh_witness :
  __thread_pool Scenario.s1 = None /\
  exists conf, Dict.get "p2" (destinations Scenario.config "producer_") = Some conf.
Proof.
  destruct (X7_new_producers_are_fresh _ _ _ _ _ _ _ _ _ _ _ scenario_built)
    as (Hp & _ & _ & _ & Hget).
  split; [exact Hp |].
  destruct (Hget "p2" (TracktorProducer.mk (mkClient "Endpoint=sb://two" "hub2")
                         "p2" "utf-8" 3 25 10000000 MessageBuffer.init 1)
              eq_refl) as (conf & _ & _ & _ & Hd & _).
  now exists conf.
Defined.

(** ** Batching *)




(** ** Names of destinations *)

Section StringFacts.

Lemma prefix_app (p s : string) : String.prefix p (p ++ s) = true.
Proof.
  induction p as [| c p IH]; cbn; [now destruct s |].
  destruct (Ascii.ascii_dec c c); [exact IH | contradiction].
Qed.

Lemma prefix_inv (p : string) : forall s,
  String.prefix p s = true -> exists b, s = (p ++ b)%string.
Proof.
  induction p as [| c p IH]; intros s H; [now exists s |].
  destruct s as [| d s]; cbn in H; [discriminate |].
  destruct (Ascii.ascii_dec c d) as [-> |]; [| discriminate].
  destruct (IH s H) as [b ->]. now exists b.
Qed.

(** The characters of an occurrence that are still to be dropped are
    dropped. *)
Lemma remove_from_skip (old a : string) : forall s,
  PyStr.remove_from old (String.length a) (a ++ s)%string
  = PyStr.remove_from old 0 s.
Proof. induction a as [| c a IH]; intros s; cbn; [reflexivity | apply IH]. Qed.

Lemma remove_all_leading (old s : string) :
  old <> EmptyString ->
  PyStr.remove_all (old ++ s)%string old = PyStr.remove_all s old.
Proof.
  intros Hne. unfold PyStr.remove_all.
  destruct old as [| c o]; [contradiction |].
  change ((String c o ++ s)%string) with (String c (o ++ s)).
  cbn [PyStr.remove_from].
  change (String c (o ++ s)) with ((String c o ++ s)%string).
  rewrite prefix_app. cbn [String.eqb negb andb String.length].
  replace (S (String.length o) - 1)%nat with (String.length o) by lia.
  apply remove_from_skip.
Qed.

Lemma remove_all_absent (old : string) : forall s,
  (forall a b, s <> (a ++ old ++ b)%string) ->
  PyStr.remove_all s old = s.
Proof.
  unfold PyStr.remove_all.
  induction s as [| c s IH]; intros Habsent; [reflexivity |].
  cbn [PyStr.remove_from].
  destruct (negb (String.eqb old EmptyString) && String.prefix old (String c s))
    eqn:E.
  - apply andb_prop in E. destruct E as [_ E].
    destruct (prefix_inv _ _ E) as [b Hb].
    exfalso. apply (Habsent EmptyString b). exact Hb.
  - f_equal. apply IH. intros a b ->.
    apply (Habsent (String c a) b). reflexivity.
Qed.

End StringFacts.

(** X9.  The name of a destination is its section name with every
    occurrence of the prefix removed, not only the leading one.  When
    the prefix does not occur in the rest of the section name, the name
    is that rest; a section whose name repeats the prefix gets the same
    name as the one that has it once, and of two such sections only the
    later one gives a producer. *)
Theorem X9_every_occurrence_of_the_prefix_is_removed
    (prefix x : string) (c1 c2 : Dict.t string) :
  prefix <> EmptyString ->
  PyStr.remove_all (prefix ++ prefix ++ x)%string prefix =
    PyStr.remove_all (prefix ++ x)%string prefix /\
  ((forall a b, x <> (a ++ prefix ++ b)%string) ->
   PyStr.remove_all (prefix ++ x)%string prefix = x) /\
  destinations [((prefix ++ x)%string, c1); ((prefix ++ prefix ++ x)%string, c2)]
               prefix =
    [(PyStr.remove_all x prefix, c2)].
Proof.
  intros Hne. split; [| split].
  - now rewrite !remove_all_leading.
  - intros Habsent. rewrite remove_all_leading by exact Hne.
    now apply remove_all_absent.
  - unfold destinations, MultiProducer.eventhub_sections, PyStr.startswith.
    cbn [fold_left]. rewrite !prefix_app, !remove_all_leading by exact Hne.
    cbn. now rewrite String.eqb_refl.
Qed.

Lemma X9_every_occurrence_of_the_prefix_is_removed_witness :
  PyStr.remove_all "producer_producer_a" "producer_" = "a" /\
  destinations [("producer_a", [("eventhub_name", "one")]);
                ("producer_producer_a", [("eventhub_name", "two")])]
               "producer_" = [("a", [("eventhub_name", "two")])].
Proof.
  destruct (X9_every_occurrence_of_the_prefix_is_removed "producer_" "a"
              [("eventhub_name", "one")] [("eventhub_name", "two")])
    as (H1 & H2 & H3); [discriminate |].
  split; [| exact H3]. reflexivity.
Defined.

(** ** Splitting *)

Section SplitFacts.
Variable sep : ascii.

Lemma split_nonempty (s : string) : PyStr.split sep s <> [].
Proof.
  induction s as [| c s IH]; cbn; [discriminate |].
  destruct (Ascii.eqb c sep); [discriminate |].
  destruct (PyStr.split sep s); [contradiction | discriminate].
Qed.

Lemma concat_split (s : string) :
  String.concat (String sep EmptyString) (PyStr.split sep s) = s.
Proof.
  induction s as [| c s IH]; [reflexivity |].
  cbn [PyStr.split]. pose proof (split_nonempty s) as Hne.
  destruct (Ascii.eqb_spec c sep) as [-> | Hc].
  - destruct (PyStr.split sep s) as [| w ws]; [contradiction |].
    cbn [String.concat]. cbn. now rewrite <- IH.
  - destruct (PyStr.split sep s) as [| w ws]; [contradiction |].
    rewrite <- IH. destruct ws; reflexivity.
Qed.

Lemma split_parts_free (s : string) : Forall (free sep) (PyStr.split sep s).
Proof.
  induction s as [| c s IH]; cbn [PyStr.split].
  - repeat constructor. intros [].
  - destruct (Ascii.eqb_spec c sep) as [-> | Hc].
    + constructor; [intros [] | exact IH].
    + destruct (PyStr.split sep s) as [| w ws]; [repeat constructor |].
      * intros [H | []]. now apply Hc.
      * inversion IH as [| ? ? Hw Hws]; subst. constructor; [| exact Hws].
        intros [H | H]; [now apply Hc | now apply Hw].
Qed.

Lemma split_free (x : string) : free sep x -> PyStr.split sep x = [x].
Proof.
  induction x as [| c x IH]; intros Hx; [reflexivity |].
  cbn [PyStr.split].
  destruct (Ascii.eqb_spec c sep) as [-> | Hc]; [exfalso; apply Hx; now left |].
  rewrite IH; [reflexivity |]. intros H. apply Hx. now right.
Qed.

Lemma split_free_app (x rest : string) :
  free sep x ->
  PyStr.split sep (x ++ String sep rest)%string = x :: PyStr.split sep rest.
Proof.
  induction x as [| c x IH]; intros Hx.
  - cbn. now rewrite Ascii.eqb_refl.
  - change ((String c x ++ String sep rest)%string)
      with (String c (x ++ String sep rest)).
    cbn [PyStr.split].
    destruct (Ascii.eqb_spec c sep) as [-> | Hc]; [exfalso; apply Hx; now left |].
    rewrite IH; [reflexivity |]. intros H. apply Hx. now right.
Qed.

Lemma split_concat (l : list string) :
  l <> [] -> Forall (free sep) l ->
  PyStr.split sep (String.concat (String sep EmptyString) l) = l.
Proof.
  induction l as [| x l IH]; intros Hne Hall; [contradiction |].
  inversion Hall as [| ? ? Hx Hl]; subst.
  destruct l as [| y l]; [now apply split_free |].
  change (String.concat (String sep EmptyString) (x :: y :: l))
    with ((x ++ String sep (String.concat (String sep EmptyString) (y :: l)))%string).
  rewrite split_free_app by exact Hx.
  f_equal. apply IH; [discriminate | exact Hl].
Qed.

End SplitFacts.

(** X10.  [split] and joining with the separator undo each other: the
    parts of a string, joined, give the string back, and a list of
    parts that is not empty and whose parts are free of the separator
    is what [split] makes of its join.  [split] never returns the empty
    list, and no part contains the separator; so the first part, which
    is what [req_to_message] keeps of the URL, is the text before the
    first separator. *)
Theorem X10_split_and_join (sep : ascii) (s : string) :
  PyStr.split sep s <> [] /\
  Forall (free sep) (PyStr.split sep s) /\
  String.concat (String sep EmptyString) (PyStr.split sep s) = s /\
  (forall l, l <> [] -> Forall (free sep) l ->
     PyStr.split sep (String.concat (String sep EmptyString) l) = l) /\
  (exists first rest,
     PyStr.split sep s = first :: rest /\ free sep first /\
     (s = first \/ exists tail, s = (first ++ String sep tail)%string)).
Proof.
  split; [apply split_nonempty |].
  split; [apply split_parts_free |].
  split; [apply concat_split |].
  split; [apply split_concat |].
  pose proof (concat_split sep s) as Hjoin.
  pose proof (split_parts_free sep s) as Hfree.
  destruct (PyStr.split sep s) as [| first rest] eqn:E.
  - now destruct (split_nonempty sep s).
  - exists first, rest. split; [reflexivity |].
    inversion Hfree as [| ? ? Hfirst Hrest]. split; [exact Hfirst |].
    destruct rest as [| y rest']; [left; now rewrite <- Hjoin |].
    right. exists (String.concat (String sep EmptyString) (y :: rest')).
    now rewrite <- Hjoin.
Qed.

(** ** Names of segments *)

Section SegmentFacts.

Import MessageApiCall.

Lemma list_ascii_app (a b : string) :
  list_ascii_of_string (a ++ b)%string
  = list_ascii_of_string a ++ list_ascii_of_string b.
Proof. induction a as [| c a IH]; cbn; [reflexivity | now rewrite IH]. Qed.

Lemma lower_char_small (c : ascii) :
  ~ (65 <= nat_of_ascii (lower_char c) <= 90)%nat.
Proof.
  unfold lower_char.
  destruct ((65 <=? nat_of_ascii c) && (nat_of_ascii c <=? 90))%nat eqn:E.
  - apply andb_prop in E. destruct E as [E1 E2].
    apply Nat.leb_le in E1, E2.
    rewrite nat_ascii_embedding by lia. lia.
  - intros [H1 H2]. apply Nat.leb_le in H1, H2. rewrite H1, H2 in E. discriminate.
Qed.

Lemma lower_small (s : string) : ~ has_capital (lower s).
Proof.
  induction s as [| c s IH]; intros (d & Hin & Hd); cbn in Hin; [contradiction |].
  destruct Hin as [<- | Hin]; [now apply (lower_char_small c) |].
  apply IH. now exists d.
Qed.

Lemma lower_app (a b : string) : lower (a ++ b) = (lower a ++ lower b)%string.
Proof. induction a as [| c a IH]; cbn; [reflexivity | now rewrite IH]. Qed.

Lemma drop_suffix (n : nat) : forall s, exists d, s = (d ++ drop n s)%string.
Proof.
  induction n as [| n IH]; intros s; [now exists EmptyString |].
  destruct s as [| c s]; [now exists EmptyString |].
  destruct (IH s) as [d Hd]. exists (String c d). cbn. now rewrite <- Hd.
Qed.

Lemma drop_app (p x : string) : drop (String.length p) (p ++ x)%string = x.
Proof. induction p as [| c p IH]; cbn; [now destruct x | exact IH]. Qed.

Lemma append_assoc (a b c : string) : ((a ++ b) ++ c = a ++ b ++ c)%string.
Proof. induction a as [| x a IH]; cbn; [reflexivity | now rewrite IH]. Qed.

(** Every step of the loop keeps a suffix of what it had. *)
Lemma strips_suffix (prefixes : list string) : forall seg,
  exists d, seg = (d ++ fold_left strip prefixes seg)%string.
Proof.
  induction prefixes as [| p ps IH]; intros seg; cbn [fold_left].
  - exists EmptyString. reflexivity.
  - destruct (drop_suffix (if PyStr.startswith seg p then String.length p else 0) seg)
      as [d1 Hd1].
    destruct (IH (strip seg p)) as [d2 Hd2].
    exists (d1 ++ d2)%string. rewrite append_assoc, <- Hd2. exact Hd1.
Qed.

Lemma capital_of_prefix (t p : string) :
  PyStr.startswith t p = true -> has_capital p -> has_capital t.
Proof.
  intros Hs (c & Hin & Hc). destruct (prefix_inv _ _ Hs) as [b ->].
  exists c. split; [| exact Hc]. rewrite list_ascii_app. apply in_or_app. now left.
Qed.

Lemma strips_nothing (prefixes : list string) : forall seg,
  Forall has_capital prefixes -> ~ has_capital seg ->
  fold_left strip prefixes seg = seg.
Proof.
  induction prefixes as [| p ps IH]; intros seg Hall Hseg; [reflexivity |].
  inversion Hall as [| ? ? Hp Hps]; subst. cbn [fold_left].
  assert (Hstrip : strip seg p = seg).
  { unfold strip. destruct (PyStr.startswith seg p) eqn:E; [| reflexivity].
    exfalso. apply Hseg. now apply (capital_of_prefix seg p). }
  rewrite Hstrip. now apply IH.
Qed.

Lemma trim_keeps_last (limit : Z) (l : list json) :
  (0 <= limit)%Z ->
  trim limit l = Ok (skipn (length l - Z.to_nat limit) l).
Proof.
  intros Hlimit. induction l as [| x rest IH]; cbn [trim].
  - replace (limit <? 0)%Z with false by (symmetry; apply Z.ltb_ge; lia).
    reflexivity.
  - destruct (Z.ltb_spec limit (Z.of_nat (length (x :: rest)))) as [Hlt | Hge].
    + rewrite IH. cbn [length] in *.
      replace (S (length rest) - Z.to_nat limit)%nat
        with (S (length rest - Z.to_nat limit)) by lia.
      reflexivity.
    + cbn [length] in *.
      replace (S (length rest) - Z.to_nat limit)%nat with O by lia.
      reflexivity.
Qed.

Lemma trim_raises (limit : Z) (l : list json) :
  (limit < 0)%Z -> trim limit l = Raise IndexError.
Proof.
  intros Hlimit. induction l as [| x rest IH]; cbn [trim].
  - now replace (limit <? 0)%Z with true by (symmetry; apply Z.ltb_lt; lia).
  - replace (limit <? Z.of_nat (length (x :: rest)))%Z with true
      by (symmetry; apply Z.ltb_lt; lia).
    exact IH.
Qed.

Lemma is_segment_In (segment : string) (l : list json) :
  existsb (is_segment segment) l = true <-> In (JStr segment) l.
Proof.
  rewrite existsb_exists. split.
  - intros (x & Hin & Hx). destruct x; try discriminate.
    cbn in Hx. apply String.eqb_eq in Hx. now subst.
  - intros Hin. exists (JStr segment). split; [exact Hin |].
    cbn. apply String.eqb_refl.
Qed.

End SegmentFacts.

(** X11.  The cleaned name of an ASCII segment is a suffix of its
    lower case: the loop only ever cuts at the front.  The prefixes are
    compared with the lower case of the segment, so a list of prefixes
    that all contain a capital letter removes nothing; and a prefix in
    lower case is removed once, where the lower case of the segment
    starts with it. *)
Theorem X11_clean_segment_name
    (prefixes : list string) (segment : string) :
  MessageApiCall.is_ascii segment ->
  (exists dropped,
      MessageApiCall.lower segment =
      (dropped ++ MessageApiCall._clean_segment_name prefixes segment)%string) /\
  (Forall MessageApiCall.has_capital prefixes ->
   MessageApiCall._clean_segment_name prefixes segment =
     MessageApiCall.lower segment) /\
  (forall p rest,
      segment = (p ++ rest)%string -> MessageApiCall.lower p = p ->
      MessageApiCall._clean_segment_name [p] segment = MessageApiCall.lower rest).
Proof.
  intros _. unfold MessageApiCall._clean_segment_name. split; [| split].
  - apply strips_suffix.
  - intros Hall. apply strips_nothing; [exact Hall | apply lower_small].
  - intros p rest -> Hp. cbn [fold_left]. unfold MessageApiCall.strip.
    rewrite lower_app, Hp. unfold PyStr.startswith.
    rewrite prefix_app. apply drop_app.
Qed.

Lemma X11_clean_segment_name_witness :
  MessageApiCall._clean_segment_name ["RT_"] "RT_Shoes" = "rt_shoes" /\
  MessageApiCall._clean_segment_name ["rt_"] "RT_Shoes" = "shoes".
Proof.
  assert (Hascii : MessageApiCall.is_ascii "RT_Shoes").
  { unfold MessageApiCall.is_ascii. cbn. repeat constructor; lia. }
  destruct (X11_clean_segment_name ["RT_"] "RT_Shoes" Hascii) as (_ & Hcap & _).
  split.
  - apply Hcap. repeat constructor. exists "R"%char. split; [now left | cbn; lia].
  - reflexivity.
Defined.

(** X12.  [set_retargeting_segment] with a segment limit that is not
    negative, for a request that names a segment in ASCII.  When
    the cleaned segment is in the stored list already, nothing is
    written, so that repeating a call changes nothing.  Otherwise the
    list written is the stored list with the segment appended, cut at
    the front to the limit: it has at most as many entries as the
    limit, it is the end of the extended list, and with a limit of at
    least 1 its last entry is the new segment.  Without the query
    parameter or without consent nothing is written. *)
Theorem X12_retargeting_segments_are_bounded
    (decode_dict : string -> json) (cfg : MessageApiCall.settings)
    (params cookies : Dict.t string) (value : string) :
  Dict.get (MessageApiCall.retargeting_query_parameter cfg) params = Some value ->
  MessageApiCall.is_ascii value ->
  (0 <= MessageApiCall.retargeting_segment_limit cfg)%Z ->
  let segment :=
    MessageApiCall._clean_segment_name
      (MessageApiCall.rt_prefix_truncate_list cfg) value in
  let seg_list :=
    match Dict.get (MessageApiCall.retargeting_cookie_name cfg) cookies with
    | Some c => match decode_dict c with JList l => l | _ => [] end
    | None => []
    end in
  MessageApiCall.set_retargeting_segment decode_dict cfg false params cookies
    = Ok None /\
  (In (JStr segment) seg_list ->
   MessageApiCall.set_retargeting_segment decode_dict cfg true params cookies
     = Ok None) /\
  (~ In (JStr segment) seg_list ->
   exists written dropped,
     MessageApiCall.set_retargeting_segment decode_dict cfg true params cookies
       = Ok (Some written) /\
     seg_list ++ [JStr segment] = dropped ++ written /\
     Z.of_nat (length written) =
       Z.min (MessageApiCall.retargeting_segment_limit cfg)
             (Z.of_nat (length seg_list) + 1) /\
     ((1 <= MessageApiCall.retargeting_segment_limit cfg)%Z ->
      exists front, written = front ++ [JStr segment])).
Proof.
  intros Hparam _ Hlimit segment seg_list.
  unfold MessageApiCall.set_retargeting_segment. rewrite Hparam. cbn [negb].
  fold segment. fold seg_list.
  split; [reflexivity |]. split.
  - intros Hin. apply is_segment_In in Hin. now rewrite Hin.
  - intros Hnew.
    destruct (existsb (MessageApiCall.is_segment segment) seg_list) eqn:E.
    { apply is_segment_In in E. contradiction. }
    rewrite (trim_keeps_last _ _ Hlimit). cbn [bind].
    set (l := seg_list ++ [JStr segment]).
    set (k := (length l - Z.to_nat (MessageApiCall.retargeting_segment_limit cfg))%nat).
    assert (Hlen : length l = S (length seg_list)).
    { unfold l. rewrite length_app. cbn. lia. }
    exists (skipn k l), (firstn k l).
    split; [reflexivity |].
    split; [symmetry; apply firstn_skipn |].
    split; [rewrite length_skipn; unfold k; lia |].
    intros Hone. unfold l.
    assert (Hk : (k <= length seg_list)%nat) by (unfold k; lia).
    rewrite skipn_app.
    replace (k - length seg_list)%nat with O by lia.
    exists (skipn k seg_list). reflexivity.
Qed.

Lemma X12_retargeting_segments_are_bounded_witness :
  MessageApiCall.set_retargeting_segment
    (fun _ => JList [JStr "a"; JStr "b"])
    (MessageApiCall.mkSettings "rt" "segments" 2 ["rt_"])
    true [("rt", "RT_C")] [("segments", "stored")]
  = Ok (Some [JStr "b"; JStr "c"]).
Proof.
  destruct (X12_retargeting_segments_are_bounded
              (fun _ => JList [JStr "a"; JStr "b"])
              (MessageApiCall.mkSettings "rt" "segments" 2 ["rt_"])
              [("rt", "RT_C")] [("segments", "stored")] "RT_C")
    as (_ & _ & Hnew).
  - reflexivity.
  - unfold MessageApiCall.is_ascii. cbn. repeat constructor; lia.
  - cbn. lia.
  - assert (Hfresh : ~ In (JStr "c") [JStr "a"; JStr "b"])
      by (intros [H | [H | []]]; discriminate).
    destruct (Hnew Hfresh) as (written & dropped & Hrun & _).
    rewrite Hrun. vm_compute in Hrun. now injection Hrun as <-.
Defined.

(** X13.  With a negative segment limit the loop that cuts the list
    pops until the list is empty and then pops once more:
    [set_retargeting_segment] raises [IndexError] for every request
    with consent that names, in ASCII, a segment that is not stored
    yet. *)
Theorem X13_negative_segment_limit_raises
    (decode_dict : string -> json) (cfg : MessageApiCall.settings)
    (params cookies : Dict.t string) (value : string) :
  Dict.get (MessageApiCall.retargeting_query_parameter cfg) params = Some value ->
  MessageApiCall.is_ascii value ->
  (MessageApiCall.retargeting_segment_limit cfg < 0)%Z ->
  ~ In (JStr (MessageApiCall._clean_segment_name
                (MessageApiCall.rt_prefix_truncate_list cfg) value))
       match Dict.get (MessageApiCall.retargeting_cookie_name cfg) cookies with
       | Some c => match decode_dict c with JList l => l | _ => [] end
       | None => []
       end ->
  MessageApiCall.set_retargeting_segment decode_dict cfg true params cookies
    = Raise IndexError.
Proof.
  intros Hparam _ Hlimit Hnew.
  unfold MessageApiCall.set_retargeting_segment. rewrite Hparam. cbn [negb].
  match goal with
  | |- context [existsb ?f ?l] => destruct (existsb f l) eqn:E
  end.
  { apply is_segment_In in E. contradiction. }
  now rewrite (trim_raises _ _ Hlimit).
Qed.

Lemma X13_negative_segment_limit_raises_witness :
  MessageApiCall.set_retargeting_segment (fun _ => JNull)
    (MessageApiCall.mkSettings "rt" "segments" (-1) [])
    true [("rt", "shoes")] []
  = Raise IndexError.
Proof.
  apply (X13_negative_segment_limit_raises (fun _ => JNull)
           (MessageApiCall.mkSettings "rt" "segments" (-1) [])
           [("rt", "shoes")] [] "shoes").
  - reflexivity.
  - unfold MessageApiCall.is_ascii. cbn. repeat constructor; lia.
  - cbn. lia.
  - intros [].
Defined.

(** ** Addresses *)

Section AddressFacts.

Import IpMagic.

Lemma from_bytes_little_bounds (bs : list Byte.byte) :
  (0 <= from_bytes_little bs < 256 ^ Z.of_nat (length bs))%Z.
Proof.
  induction bs as [| b rest IH]; cbn [from_bytes_little length]; [lia |].
  pose proof (Byte.to_N_bounded b) as Hb.
  rewrite Nat2Z.inj_succ, Z.pow_succ_r by lia. lia.
Qed.

Lemma byte_of_value (n : Z) : Z.of_N (Byte.to_N (byte_of n)) = (n mod 256)%Z.
Proof.
  pose proof (Z.mod_pos_bound n 256 ltac:(lia)) as Hm.
  unfold byte_of. destruct (Byte.of_N (Z.to_N (n mod 256))) as [b |] eqn:E.
  - apply Byte.to_of_N in E. rewrite E. apply Z2N.id. lia.
  - apply Byte.of_N_None_iff in E. lia.
Qed.

Lemma to_bytes_little_length (len : nat) : forall n,
  length (to_bytes_little len n) = len.
Proof. induction len as [| len IH]; intros n; cbn; [reflexivity | now rewrite IH]. Qed.

Lemma from_to_bytes_little (len : nat) : forall n,
  (0 <= n < 256 ^ Z.of_nat len)%Z ->
  from_bytes_little (to_bytes_little len n) = n.
Proof.
  induction len as [| len IH]; intros n Hn.
  - cbn in *. lia.
  - cbn [to_bytes_little from_bytes_little].
    rewrite Nat2Z.inj_succ, Z.pow_succ_r in Hn by lia.
    rewrite byte_of_value, IH.
    + pose proof (Z.div_mod n 256 ltac:(lia)). lia.
    + split; [apply Z.div_pos; lia |].
      apply Z.div_lt_upper_bound; lia.
Qed.

Lemma from_bytes_little_zeros (k : nat) (l : list Byte.byte) :
  from_bytes_little (repeat Byte.x00 k ++ l)
  = (from_bytes_little l * 256 ^ Z.of_nat k)%Z.
Proof.
  induction k as [| k IH].
  - cbn. lia.
  - cbn [repeat app from_bytes_little]. rewrite IH.
    rewrite Nat2Z.inj_succ, Z.pow_succ_r by lia.
    change (Z.of_N (Byte.to_N Byte.x00)) with 0%Z. lia.
Qed.

Lemma pow_256 (k : Z) : (0 <= k)%Z -> (256 ^ k = 2 ^ (8 * k))%Z.
Proof. intros Hk. rewrite Z.pow_mul_r by lia. reflexivity. Qed.

(** The bytes an integer is written with are just enough for it. *)
Lemma byte_count_bounds (v : Z) :
  (0 < v)%Z ->
  (256 ^ (Z.of_nat (byte_count v) - 1) <= v < 256 ^ Z.of_nat (byte_count v))%Z.
Proof.
  intros Hv. unfold byte_count, bit_length.
  replace (v =? 0)%Z with false by (symmetry; apply Z.eqb_neq; lia).
  rewrite Z.abs_eq by lia.
  pose proof (Z.log2_nonneg v) as Hlog.
  destruct (Z.log2_spec v Hv) as [Hlo Hhi].
  set (x := Z.log2 v) in *.
  pose proof (Z.div_mod (x + 1 + 7) 8 ltac:(lia)) as Hdm.
  pose proof (Z.mod_pos_bound (x + 1 + 7) 8 ltac:(lia)) as Hmb.
  set (q := ((x + 1 + 7) / 8)%Z) in *.
  assert (Hq : (1 <= q)%Z) by lia.
  rewrite Z2Nat.id by lia.
  rewrite !pow_256 by lia. split.
  - apply Z.le_trans with (2 ^ x)%Z; [| exact Hlo].
    apply Z.pow_le_mono_r; lia.
  - apply Z.lt_le_trans with (2 ^ Z.succ x)%Z; [exact Hhi |].
    apply Z.pow_le_mono_r; lia.
Qed.

Lemma byte_count_zero : byte_count 0 = O.
Proof. reflexivity. Qed.

Lemma byte_count_fits (len : nat) (v : Z) :
  (0 <= v < 256 ^ Z.of_nat len)%Z -> (byte_count v <= len)%nat.
Proof.
  intros [H0 Hlt]. destruct (Z.eq_dec v 0) as [-> | Hne].
  - rewrite byte_count_zero. lia.
  - destruct (byte_count_bounds v ltac:(lia)) as [Hlo _].
    assert (Hpow : (256 ^ (Z.of_nat (byte_count v) - 1) < 256 ^ Z.of_nat len)%Z) by lia.
    apply Z.pow_lt_mono_r_iff in Hpow; lia.
Qed.

Lemma from_bytes_of_integer (v : Z) :
  (0 <= v)%Z -> from_bytes_little (to_bytes_little (byte_count v) v) = v.
Proof.
  intros Hv. destruct (Z.eq_dec v 0) as [-> | Hne]; [reflexivity |].
  apply from_to_bytes_little. pose proof (byte_count_bounds v ltac:(lia)). lia.
Qed.

Lemma microcelled_nonneg (n modulo : Z) :
  (0 <= n)%Z -> modulo <> 0%Z -> (0 <= n - n mod modulo)%Z.
Proof.
  intros Hn Hm. destruct (Z_lt_le_dec 0 modulo) as [Hpos | Hneg].
  - pose proof (Z.mod_le n modulo Hn Hpos). lia.
  - pose proof (Z.mod_neg_bound n modulo ltac:(lia)). lia.
Qed.

Lemma before_last_free (sep : ascii) (d : string) :
  free sep d -> before_last sep d = None.
Proof.
  induction d as [| c d IH]; intros Hfree; [reflexivity |].
  cbn [before_last]. rewrite IH.
  - destruct (Ascii.eqb_spec c sep) as [-> | Hne]; [| reflexivity].
    exfalso. apply Hfree. now left.
  - intros Hin. apply Hfree. now right.
Qed.

Lemma before_last_app (sep : ascii) (a d : string) :
  free sep d -> before_last sep (a ++ String sep d)%string = Some a.
Proof.
  intros Hfree. induction a as [| c a IH]; cbn [append before_last].
  - rewrite (before_last_free _ _ Hfree). now rewrite Ascii.eqb_refl.
  - now rewrite IH.
Qed.

End AddressFacts.

(** X14.  [microcelling] with a positive modulus, for a string that
    [inet_pton] reads as an address of its family.  The integer is
    rounded down to a multiple of the modulus, and the bytes handed to
    [inet_ntop] have the length of the family.  The zero bytes are put
    in front of a little-endian number, where they are its low bytes:
    the bytes handed on stand for the rounded integer shifted up by the
    missing bytes, and they stand for the rounded integer itself
    exactly when it is zero or fills all the bytes of the family, that
    is when the last byte of the address is not zero after rounding. *)
Theorem X14_microcelling_rounds_down
    (inet_pton : IpMagic.family -> string -> option (list Byte.byte))
    (inet_ntop : IpMagic.family -> list Byte.byte -> option string)
    (modulo : Z) (ip : string) (f : IpMagic.family) (bs : list Byte.byte) :
  (0 < modulo)%Z ->
  IpMagic.family_of ip = Some f ->
  inet_pton f ip = Some bs ->
  length bs = IpMagic.byte_len f ->
  let n := IpMagic.from_bytes_little bs in
  let v := (n - n mod modulo)%Z in
  let out := IpMagic.microcelled_byte_ip (IpMagic.byte_len f) v in
  IpMagic.microcelling inet_pton inet_ntop modulo ip
    = IpMagic.Returned (inet_ntop f out) /\
  v = (modulo * (n / modulo))%Z /\
  (n - modulo < v <= n)%Z /\
  length out = IpMagic.byte_len f /\
  IpMagic.from_bytes_little out
    = (v * 256 ^ Z.of_nat (IpMagic.byte_len f - IpMagic.byte_count v))%Z /\
  (IpMagic.from_bytes_little out = v <->
   v = 0%Z \/ (256 ^ (Z.of_nat (IpMagic.byte_len f) - 1) <= v)%Z).
Proof.
  intros Hmod Hfam Hpton Hlen n v out.
  pose proof (from_bytes_little_bounds bs) as Hn. fold n in Hn.
  rewrite Hlen in Hn.
  pose proof (Z.mod_pos_bound n modulo Hmod) as Hm.
  pose proof (Z.div_mod n modulo ltac:(lia)) as Hdm.
  pose proof (microcelled_nonneg n modulo ltac:(lia) ltac:(lia)) as Hv0.
  fold v in Hv0.
  assert (Hv : (0 <= v < 256 ^ Z.of_nat (IpMagic.byte_len f))%Z) by (unfold v; lia).
  pose proof (byte_count_fits _ _ Hv) as Hfit.
  assert (Hout : IpMagic.from_bytes_little out
                 = (v * 256 ^ Z.of_nat (IpMagic.byte_len f - IpMagic.byte_count v))%Z).
  { unfold out, IpMagic.microcelled_byte_ip.
    rewrite to_bytes_little_length, from_bytes_little_zeros.
    now rewrite from_bytes_of_integer by lia. }
  split; [| split; [| split; [| split; [| split]]]].
  - unfold IpMagic.microcelling. rewrite Hfam, Hpton. fold n.
    replace (modulo =? 0)%Z with false by (symmetry; apply Z.eqb_neq; lia).
    fold v. replace (v <? 0)%Z with false by (symmetry; apply Z.ltb_ge; lia).
    reflexivity.
  - unfold v. lia.
  - unfold v. lia.
  - unfold out, IpMagic.microcelled_byte_ip.
    rewrite length_app, repeat_length, to_bytes_little_length. lia.
  - exact Hout.
  - rewrite Hout. split.
    + intros Heq. destruct (Z.eq_dec v 0) as [-> | Hne]; [now left | right].
      destruct (Nat.eq_dec (IpMagic.byte_count v) (IpMagic.byte_len f)) as [E | E].
      * rewrite <- E. apply byte_count_bounds. lia.
      * exfalso.
        assert (Hk : (1 <= Z.of_nat (IpMagic.byte_len f - IpMagic.byte_count v))%Z) by lia.
        assert (Hp : (256 ^ 1 <= 256 ^ Z.of_nat (IpMagic.byte_len f - IpMagic.byte_count v))%Z)
          by (apply Z.pow_le_mono_r; lia).
        nia.
    + intros [-> | Hfull]; [reflexivity |].
      assert (Hpos : (0 < v)%Z).
      { pose proof (Z.pow_pos_nonneg 256 (Z.of_nat (IpMagic.byte_len f) - 1)
                      ltac:(lia) ltac:(destruct f; cbn; lia)). lia. }
      destruct (byte_count_bounds v Hpos) as [_ Hhi].
      assert (Hpow : (256 ^ (Z.of_nat (IpMagic.byte_len f) - 1)
                      < 256 ^ Z.of_nat (IpMagic.byte_count v))%Z) by lia.
      apply Z.pow_lt_mono_r_iff in Hpow; [| lia | lia].
      replace (IpMagic.byte_len f - IpMagic.byte_count v)%nat with O by lia.
      cbn. lia.
Qed.

Lemma X14_microcelling_rounds_down_witness :
  IpMagic.microcelling
    (fun _ _ => Some [Byte.x0a; Byte.x01; Byte.x02; Byte.x00])
    (fun _ out =>
       match out with
       | [Byte.x00; Byte.x07; Byte.x01; Byte.x02] => Some "0.7.1.2"
       | _ => None
       end)
    5 "10.1.2.0"
  = IpMagic.Returned (Some "0.7.1.2").
Proof.
  destruct (X14_microcelling_rounds_down
              (fun _ _ => Some [Byte.x0a; Byte.x01; Byte.x02; Byte.x00])
              (fun _ out =>
                 match out with
                 | [Byte.x00; Byte.x07; Byte.x01; Byte.x02] => Some "0.7.1.2"
                 | _ => None
                 end)
              5 "10.1.2.0" IpMagic.AF_INET
              [Byte.x0a; Byte.x01; Byte.x02; Byte.x00])
    as (Hrun & _).
  - lia.
  - reflexivity.
  - reflexivity.
  - reflexivity.
  - exact Hrun.
Defined.

(** X15.  The [except] clauses of [microcelling] catch [OSError],
    [ValueError] and [TypeError] only.  An exception leaves the function
    in exactly one case: the modulus is zero and the string was read as
    an address, and then it is [ZeroDivisionError].  The rounded integer
    is never negative, whatever the sign of the modulus, so that
    [to_bytes] never raises [OverflowError]. *)
Theorem X15_microcelling_raises_only_for_modulus_zero
    (inet_pton : IpMagic.family -> string -> option (list Byte.byte))
    (inet_ntop : IpMagic.family -> list Byte.byte -> option string)
    (modulo : Z) (ip : string) (e : IpMagic.error) :
  IpMagic.microcelling inet_pton inet_ntop modulo ip = IpMagic.Raised e <->
  e = IpMagic.ZeroDivisionError /\ modulo = 0%Z /\
  exists f bs, IpMagic.family_of ip = Some f /\ inet_pton f ip = Some bs.
Proof.
  unfold IpMagic.microcelling. split.
  - destruct (IpMagic.family_of ip) as [f |]; [| discriminate].
    destruct (inet_pton f ip) as [bs |] eqn:Hpton; [| discriminate].
    destruct (Z.eqb_spec modulo 0) as [-> | Hne].
    + intros [= <-]. split; [reflexivity |]. split; [reflexivity |].
      exists f, bs. now split.
    + pose proof (from_bytes_little_bounds bs) as [Hn _].
      pose proof (microcelled_nonneg _ modulo Hn Hne) as Hv.
      match goal with
      | |- context [(?v <? 0)%Z] =>
          replace (v <? 0)%Z with false by (symmetry; apply Z.ltb_ge; lia)
      end.
      discriminate.
  - intros (-> & -> & f & bs & -> & ->). reflexivity.
Qed.

(** X16.  [geo_location_ip] for a string that [ip_address] accepts as
    an address that is not of version 6: what follows the last dot is
    replaced by 0, and what is before it is kept as it is written. *)
Theorem X16_geo_location_replaces_last_octet
    (ip_version : string -> option Z) (ip_str a d : string) (version : Z) :
  ip_version ip_str = Some version ->
  version <> 6%Z ->
  ip_str = (a ++ String "."%char d)%string ->
  free "."%char d ->
  IpMagic.geo_location_ip ip_version ip_str = (a ++ ".0")%string.
Proof.
  intros Hversion Hne -> Hfree. unfold IpMagic.geo_location_ip.
  rewrite Hversion.
  replace (version =? 6)%Z with false by (symmetry; apply Z.eqb_neq; lia).
  unfold IpMagic.rsplit_head. now rewrite (before_last_app _ _ _ Hfree).
Qed.

Lemma X16_geo_location_replaces_last_octet_witness :
  IpMagic.geo_location_ip (fun _ => Some 4%Z) "192.168.17.45" = "192.168.17.0".
Proof.
  apply (X16_geo_location_replaces_last_octet
           (fun _ => Some 4%Z) "192.168.17.45" "192.168.17" "45" 4%Z).
  - reflexivity.
  - lia.
  - reflexivity.
  - intros H. cbn in H. intuition discriminate.
Defined.

(** X17.  The collisions [microcelling] is made for: two strings that
    [inet_pton] reads as addresses of one family, whose integers have
    the same quotient by the modulus, give the same result, whatever
    the sign of the modulus. *)
Theorem X17_addresses_of_one_cell_collide
    (inet_pton : IpMagic.family -> string -> option (list Byte.byte))
    (inet_ntop : IpMagic.family -> list Byte.byte -> option string)
    (modulo : Z) (ip1 ip2 : string) (f : IpMagic.family)
    (bs1 bs2 : list Byte.byte) :
  modulo <> 0%Z ->
  IpMagic.family_of ip1 = Some f ->
  IpMagic.family_of ip2 = Some f ->
  inet_pton f ip1 = Some bs1 ->
  inet_pton f ip2 = Some bs2 ->
  (IpMagic.from_bytes_little bs1 / modulo
   = IpMagic.from_bytes_little bs2 / modulo)%Z ->
  IpMagic.microcelling inet_pton inet_ntop modulo ip1
  = IpMagic.microcelling inet_pton inet_ntop modulo ip2.
Proof.
  intros Hmod Hf1 Hf2 Hp1 Hp2 Hcell.
  unfold IpMagic.microcelling. rewrite Hf1, Hf2, Hp1, Hp2.
  pose proof (Z.div_mod (IpMagic.from_bytes_little bs1) modulo Hmod) as H1.
  pose proof (Z.div_mod (IpMagic.from_bytes_little bs2) modulo Hmod) as H2.
  replace (IpMagic.from_bytes_little bs2
           - IpMagic.from_bytes_little bs2 mod modulo)%Z
    with (IpMagic.from_bytes_little bs1
          - IpMagic.from_bytes_little bs1 mod modulo)%Z
    by (rewrite Hcell in H1; lia).
  reflexivity.
Qed.

Lemma X17_addresses_of_one_cell_collide_witness :
  IpMagic.microcelling
    (fun _ ip =>
       if String.eqb ip "13.9.9.9"
       then Some [Byte.x0d; Byte.x09; Byte.x09; Byte.x09]
       else Some [Byte.x10; Byte.x09; Byte.x09; Byte.x09])
    (fun _ out =>
       match out with
       | [Byte.x0d; Byte.x09; Byte.x09; Byte.x09] => Some "13.9.9.9"
       | _ => None
       end)
    5 "16.9.9.9"
  = IpMagic.microcelling
      (fun _ ip =>
         if String.eqb ip "13.9.9.9"
         then Some [Byte.x0d; Byte.x09; Byte.x09; Byte.x09]
         else Some [Byte.x10; Byte.x09; Byte.x09; Byte.x09])
      (fun _ out =>
         match out with
         | [Byte.x0d; Byte.x09; Byte.x09; Byte.x09] => Some "13.9.9.9"
         | _ => None
         end)
      5 "13.9.9.9".
Proof.
  apply (X17_addresses_of_one_cell_collide _ _ 5
           "16.9.9.9" "13.9.9.9" IpMagic.AF_INET
           [Byte.x10; Byte.x09; Byte.x09; Byte.x09]
           [Byte.x0d; Byte.x09; Byte.x09; Byte.x09]).
  - lia.
  - reflexivity.
  - reflexivity.
  - reflexivity.
  - reflexivity.
  - reflexivity.
Defined.
